(** * Pairs trading: signal state machine, backtest and pair scanner

    A shallow embedding of [scripts/pairs_trading.py] (statistical-arbitrage
    skill): [generate_trading_signals], [backtest_pairs_strategy],
    [calculate_correlation], [cointegration_test] and
    [find_cointegrated_pairs].  Loading of CSV files, the command line and
    the printed report are not modelled.

    Python floats and numpy/pandas [float64] values are Rocq's primitive
    binary64 floats, so comparisons against NaN, infinities and rounding
    behave as in the program.  A pandas [Series] of [float64] is a
    [list float] (a missing value is NaN), a data frame is the list of its
    rows, and the integer [signal] column is a [list Z].  Functions that
    can raise return [PyException + _].  Library routines with no
    counterpart on primitive floats (numpy's power, pandas' correlation,
    statsmodels' regression and stationarity test) are Section variables. *)

From Stdlib Require Import String.
From Stdlib Require Import ZArith List Bool Lia.
From Stdlib Require Import Sorting.Sorted Sorting.Permutation.
From Stdlib Require Import Floats.
Import ListNotations.

Local Open Scope list_scope.
Local Open Scope Z_scope.
Set Warnings "-inexact-float".

(** ** Floats as the program uses them *)

(** Python's [x > y] on floats: false as soon as one side is NaN. *)
Definition gtb (x y : float) : bool := PrimFloat.ltb y x.

(** A float that is a number. *)
Definition not_nan (x : float) : Prop := PrimFloat.is_nan x = false.

(** Conversion of a Python [int] (or an [int64] cell) to [float64], for
    magnitudes below 2^63. *)
Definition float_of_int (n : Z) : float :=
  if n <? 0 then PrimFloat.opp (PrimFloat.of_uint63 (Uint63.of_Z (- n)))
  else PrimFloat.of_uint63 (Uint63.of_Z n).

(** On the bit-level description of a float: +0, +infinity, or a positive
    finite float whose exponent is at least [k]. *)
Definition positive_above (k : Z) (f : spec_float) : Prop :=
  match f with
  | S754_zero false => True
  | S754_infinity false => True
  | S754_finite false _ e => k <= e
  | _ => False
  end.

(** The floats a count can be: +0, +infinity, or finite and at least 1 (a
    53-bit mantissa with an exponent of at least -52). *)
Definition counts (x : float) : Prop := positive_above (-52) (Prim2SF x).

(** Exceptions the program can raise: [IndexError] from a positional lookup
    ([.iloc]), or an exception raised inside a library call. *)
Inductive PyException : Type :=
  | IndexError
  | Raised (name : string).

(** ** The pandas operations the program calls *)

Module Series.

(** Element-wise binary operation on two columns of one frame. *)
Definition map2 {A B C : Type} (f : A -> B -> C) (xs : list A) (ys : list B)
    : list C :=
  map (fun p => f (fst p) (snd p)) (combine xs ys).

(** [s.shift(1)]: every value moves one row down, the first row is NaN. *)
Definition shift1 (xs : list float) : list float :=
  match xs with
  | [] => []
  | _ :: _ => PrimFloat.nan :: removelast xs
  end.

(** [s.dropna()] on the values. *)
Definition dropna (xs : list float) : list float :=
  filter (fun x => negb (PrimFloat.is_nan x)) xs.

(** [s.pct_change()] on a NaN-free price column: [s / s.shift(1) - 1]. *)
Definition pct_change (xs : list float) : list float :=
  map2 (fun x prev => PrimFloat.sub (PrimFloat.div x prev) PrimFloat.one)
       xs (shift1 xs).

(** [s.fillna(v)]. *)
Definition fillna (v : float) (xs : list float) : list float :=
  map (fun x => if PrimFloat.is_nan x then v else x) xs.

(** [s.diff()] on an [int64] column: NaN in the first row; below it pandas
    subtracts the integer cells and stores each difference as [float64]. *)
Definition diff_int (xs : list Z) : list float :=
  match xs with
  | [] => []
  | _ :: rest =>
      PrimFloat.nan :: map2 (fun x prev => float_of_int (x - prev)) rest xs
  end.

(** Sum of the values, left to right (numpy may group the additions of a
    long array differently, which can change the last bit of a rounded
    sum). *)
Definition fsum (xs : list float) : float :=
  fold_left PrimFloat.add xs PrimFloat.zero.

(** [s.sum()]: NaN skipped. *)
Definition sum (xs : list float) : float := fsum (dropna xs).

(** [s.mean()]: NaN skipped; NaN for an all-NaN or empty column. *)
Definition mean (xs : list float) : float :=
  let v := dropna xs in
  PrimFloat.div (fsum v) (float_of_int (Z.of_nat (length v))).

(** [s.std()]: sample standard deviation ([ddof = 1]) of the non-NaN
    values, NaN when there are fewer than two of them. *)
Definition std (xs : list float) : float :=
  let v := dropna xs in
  let count := Z.of_nat (length v) in
  if count <=? 1 then PrimFloat.nan
  else
    let avg := PrimFloat.div (fsum v) (float_of_int count) in
    let sqr := map (fun x => PrimFloat.mul (PrimFloat.sub avg x)
                                           (PrimFloat.sub avg x)) v in
    PrimFloat.sqrt (PrimFloat.div (fsum sqr) (float_of_int (count - 1))).

(** [s.cumprod()]: running product; a NaN row stays NaN and does not enter
    the product. *)
Fixpoint cumprod_from (acc : float) (xs : list float) : list float :=
  match xs with
  | [] => []
  | x :: xs' =>
      if PrimFloat.is_nan x then PrimFloat.nan :: cumprod_from acc xs'
      else let acc' := PrimFloat.mul acc x in acc' :: cumprod_from acc' xs'
  end.

Definition cumprod (xs : list float) : list float :=
  cumprod_from PrimFloat.one xs.

(** [s.iloc[-1]]. *)
Definition iloc_last (xs : list float) : PyException + float :=
  match xs with
  | [] => inl IndexError
  | _ :: _ => inr (last xs PrimFloat.nan)
  end.

End Series.

(** ** [generate_trading_signals]: the threshold state machine *)

Module Signals.

(** One row of the [signals] data frame. *)
Record Row : Type := mkRow {
  price_a : float;
  price_b : float;
  spread : float;
  z_score : float;
  signal : Z
}.

(** Body of the loop at one index: the [if position == 0 / elif position == 1
    / elif position == -1] chain, returning the new value of [position]. *)
Definition step (entry_threshold exit_threshold stop_loss : float)
    (position : Z) (z : float) : Z :=
  if position =? 0 then
    if gtb z entry_threshold then -1
    else if PrimFloat.ltb z (PrimFloat.opp entry_threshold) then 1
    else position
  else if position =? 1 then
    if gtb z exit_threshold || gtb z stop_loss then 0 else position
  else if position =? -1 then
    if PrimFloat.ltb z (PrimFloat.opp exit_threshold)
       || PrimFloat.ltb z (PrimFloat.opp stop_loss)
    then 0 else position
  else position.

(** [for i in range(1, len(signals))]: the values written to the [signal]
    column at indices 1, 2, ..., given the z-scores at those indices. *)
Fixpoint signal_loop (entry_threshold exit_threshold stop_loss : float)
    (position : Z) (zs : list float) : list Z :=
  match zs with
  | [] => []
  | z :: zs' =>
      let position' := step entry_threshold exit_threshold stop_loss position z in
      position' :: signal_loop entry_threshold exit_threshold stop_loss position' zs'
  end.

(** The whole [signal] column: initialised to 0, index 0 never rewritten. *)
Definition signal_column (entry_threshold exit_threshold stop_loss : float)
    (zs : list float) : list Z :=
  match zs with
  | [] => []
  | _ :: rest => 0 :: signal_loop entry_threshold exit_threshold stop_loss 0 rest
  end.

(** The three states of the machine: short-spread, flat, long-spread. *)
Definition is_state (p : Z) : Prop := p = -1 \/ p = 0 \/ p = 1.

(** The transition table as the specification words it, one constructor per
    row: [transition entry exit stop z current next].  Each row carries the
    condition written in its own line of the table and nothing else; an
    "otherwise" row applies when no other row of the same state does. *)
Inductive transition (entry exit stop : float) (z : float) : Z -> Z -> Prop :=
  | flat_to_short :
      gtb z entry = true -> transition entry exit stop z 0 (-1)
  | flat_to_long :
      PrimFloat.ltb z (PrimFloat.opp entry) = true ->
      transition entry exit stop z 0 1
  | flat_stays :
      gtb z entry = false -> PrimFloat.ltb z (PrimFloat.opp entry) = false ->
      transition entry exit stop z 0 0
  | long_to_flat :
      gtb z exit = true \/ gtb z stop = true ->
      transition entry exit stop z 1 0
  | long_stays :
      gtb z exit = false -> gtb z stop = false ->
      transition entry exit stop z 1 1
  | short_to_flat :
      PrimFloat.ltb z (PrimFloat.opp exit) = true
      \/ PrimFloat.ltb z (PrimFloat.opp stop) = true ->
      transition entry exit stop z (-1) 0
  | short_stays :
      PrimFloat.ltb z (PrimFloat.opp exit) = false ->
      PrimFloat.ltb z (PrimFloat.opp stop) = false ->
      transition entry exit stop z (-1) (-1).

(** The same table with its rows read in order, the first that applies being
    taken: the row to long-spread applies only when the row to short-spread
    does not. *)
Inductive ordered_transition (entry exit stop : float) (z : float)
    : Z -> Z -> Prop :=
  | first_flat_to_short :
      gtb z entry = true -> ordered_transition entry exit stop z 0 (-1)
  | then_flat_to_long :
      gtb z entry = false -> PrimFloat.ltb z (PrimFloat.opp entry) = true ->
      ordered_transition entry exit stop z 0 1
  | else_flat_stays :
      gtb z entry = false -> PrimFloat.ltb z (PrimFloat.opp entry) = false ->
      ordered_transition entry exit stop z 0 0
  | first_long_to_flat :
      gtb z exit = true \/ gtb z stop = true ->
      ordered_transition entry exit stop z 1 0
  | else_long_stays :
      gtb z exit = false -> gtb z stop = false ->
      ordered_transition entry exit stop z 1 1
  | first_short_to_flat :
      PrimFloat.ltb z (PrimFloat.opp exit) = true
      \/ PrimFloat.ltb z (PrimFloat.opp stop) = true ->
      ordered_transition entry exit stop z (-1) 0
  | else_short_stays :
      PrimFloat.ltb z (PrimFloat.opp exit) = false ->
      PrimFloat.ltb z (PrimFloat.opp stop) = false ->
      ordered_transition entry exit stop z (-1) (-1).

(** [generate_trading_signals] on an aligned pair of price columns (one
    row per common timestamp, [prices] holding [(price_a, price_b)]). *)
Definition generate_trading_signals (prices : list (float * float))
    (beta alpha resid_std : float)
    (entry_threshold exit_threshold stop_loss : float) : list Row :=
  let spread_col :=
    map (fun p => PrimFloat.sub (fst p)
                    (PrimFloat.add alpha (PrimFloat.mul beta (snd p)))) prices in
  let spread_mean := Series.mean spread_col in
  let z_col :=
    map (fun s => PrimFloat.div (PrimFloat.sub s spread_mean) resid_std)
        spread_col in
  let signal_col := signal_column entry_threshold exit_threshold stop_loss z_col in
  map (fun r => mkRow (fst (fst (fst r))) (snd (fst (fst r)))
                      (snd (fst r)) (fst (snd r)) (snd (snd r)))
      (combine (combine prices spread_col) (combine z_col signal_col)).

End Signals.

(** ** [backtest_pairs_strategy] *)

Module Backtest.

(** The dictionary returned by [backtest_pairs_strategy].  [sharpe_ratio]
    is a float also where the program returns the integer literal [0]. *)
Record BacktestResult : Type := mkResult {
  total_return : float;
  annual_return : float;
  volatility : float;
  sharpe_ratio : float;
  num_trades : float;
  cumulative_returns : list float;
  net_returns : list float
}.

(** The columns the function computes on its way, from the [signal] column
    and the two return columns. *)

(** [signals['signal'].shift(1).fillna(0)]: shifting turns the integer
    column into [float64]. *)
Definition lagged_position (signal_col : list Z) : list float :=
  Series.fillna PrimFloat.zero (Series.shift1 (map float_of_int signal_col)).

(** [position * (returns_a - returns_b)]. *)
Definition spread_returns (signal_col : list Z) (returns_a returns_b : list float)
    : list float :=
  Series.map2 PrimFloat.mul (lagged_position signal_col)
              (Series.map2 PrimFloat.sub returns_a returns_b).

(** [signals['signal'].diff().abs()]. *)
Definition position_changes (signal_col : list Z) : list float :=
  map PrimFloat.abs (Series.diff_int signal_col).

(** [position_changes * transaction_cost]. *)
Definition costs (signal_col : list Z) (transaction_cost : float) : list float :=
  map (fun d => PrimFloat.mul d transaction_cost) (position_changes signal_col).

(** [spread_returns - costs]. *)
Definition net_returns_column (signal_col : list Z)
    (returns_a returns_b : list float) (transaction_cost : float) : list float :=
  Series.map2 PrimFloat.sub (spread_returns signal_col returns_a returns_b)
              (costs signal_col transaction_cost).

(** The [net_returns] column as computed from a frame. *)
Definition net_of (signals : list Signals.Row) (transaction_cost : float)
    : list float :=
  net_returns_column (map Signals.signal signals)
    (Series.pct_change (map Signals.price_a signals))
    (Series.pct_change (map Signals.price_b signals)) transaction_cost.

(** Row read past the end of a frame. *)
Definition no_row : Signals.Row :=
  Signals.mkRow PrimFloat.nan PrimFloat.nan PrimFloat.nan PrimFloat.nan 0.

Section WithPower.

(** numpy's [float64 ** float]. *)
Variable power : float -> float -> float.

Definition backtest_pairs_strategy (signals : list Signals.Row)
    (transaction_cost : float) : PyException + BacktestResult :=
  let returns_a := Series.pct_change (map Signals.price_a signals) in
  let returns_b := Series.pct_change (map Signals.price_b signals) in
  let position :=
    Series.fillna PrimFloat.zero
      (Series.shift1 (map float_of_int (map Signals.signal signals))) in
  let spread_returns :=
    Series.map2 PrimFloat.mul position
                (Series.map2 PrimFloat.sub returns_a returns_b) in
  let position_changes :=
    map PrimFloat.abs (Series.diff_int (map Signals.signal signals)) in
  let costs :=
    map (fun d => PrimFloat.mul d transaction_cost) position_changes in
  let net_returns := Series.map2 PrimFloat.sub spread_returns costs in
  let cumulative_returns :=
    map (fun x => PrimFloat.sub x PrimFloat.one)
        (Series.cumprod
           (map (fun x => PrimFloat.add PrimFloat.one x) net_returns)) in
  match Series.iloc_last cumulative_returns with
  | inl e => inl e
  | inr total_return =>
      let annual_return :=
        PrimFloat.sub
          (power (PrimFloat.add PrimFloat.one total_return)
                 (PrimFloat.div (float_of_int 252)
                                (float_of_int (Z.of_nat (length signals)))))
          PrimFloat.one in
      let volatility :=
        PrimFloat.mul (Series.std net_returns)
                      (PrimFloat.sqrt (float_of_int 252)) in
      let sharpe :=
        if gtb volatility PrimFloat.zero
        then PrimFloat.div annual_return volatility
        else PrimFloat.zero in
      let num_trades :=
        PrimFloat.div (Series.sum position_changes) (float_of_int 2) in
      inr (mkResult total_return annual_return volatility sharpe num_trades
                    cumulative_returns net_returns)
  end.

End WithPower.

(** *** Concrete frames *)

(** numpy's power at exponent 1, where it returns its base; elsewhere this
    stand-in answers NaN.  The frames below have 252 rows, so the exponent
    [252 / len(signals)] of the annualisation is 1. *)
Definition power_one (x y : float) : float :=
  if PrimFloat.eqb y PrimFloat.one then x else PrimFloat.nan.

Definition frame_row (a b : float) (s : Z) : Signals.Row :=
  Signals.mkRow a b PrimFloat.zero PrimFloat.zero s.

(** A year of constant prices with no position taken. *)
Definition flat_year : list Signals.Row := repeat (frame_row 100 50 0) 252.

(** A year that opens with the position column [0, 0, 1, 1, 0] and then
    stays flat at constant prices. *)
Definition round_trip_year : list Signals.Row :=
  [frame_row 100 1 0; frame_row 100 1 0; frame_row 101 1 1;
   frame_row 98.98 1 1; frame_row 98.98 1 0]
  ++ repeat (frame_row 98.98 1 0) 247.

End Backtest.

(** ** [calculate_correlation], [cointegration_test], [find_cointegrated_pairs] *)

Module Scanner.

(** A time-indexed price series: [(timestamp, price)] rows in index order. *)
Definition PriceSeries : Type := list (Z * float).

Definition index (s : PriceSeries) : list Z := map fst s.
Definition values (s : PriceSeries) : list float := map snd s.

(** [price.pct_change().dropna()], index kept. *)
Definition returns (s : PriceSeries) : PriceSeries :=
  filter (fun p => negb (PrimFloat.is_nan (snd p)))
         (combine (index s) (Series.pct_change (values s))).

(** [a.index.intersection(b.index)]. *)
Definition intersection (ia ib : list Z) : list Z :=
  filter (fun t => existsb (Z.eqb t) ib) ia.

(** [s.loc[idx]] for labels that all occur in [s]. *)
Definition loc (s : PriceSeries) (idx : list Z) : list float :=
  flat_map (fun t => match find (fun p => fst p =? t) s with
                     | Some p => [snd p]
                     | None => []
                     end) idx.

(** The rows two series share: length of their common timestamp set. *)
Definition aligned_length (a b : PriceSeries) : Z :=
  Z.of_nat (length (intersection (index a) (index b))).

(** What [OLS(...).fit()] exposes to the program. *)
Record OLSResults : Type := mkOLS {
  params : list float;
  resid : list float
}.

(** What [adfuller] returns, as far as the program reads it. *)
Record ADFResult : Type := mkADF {
  adf_stat : float;
  adf_pvalue : float;
  adf_critical : list (string * float)
}.

(** The dictionary returned by [cointegration_test]. *)
Record CointResult : Type := mkCoint {
  cointegrated : bool;
  p_value : float;
  test_stat : float;
  alpha : float;
  beta : float;
  resid_std : float;
  resid_mean : float;
  critical_values : list (string * float)
}.

(** One entry of the list returned by [find_cointegrated_pairs]:
    [{'stock_a', 'stock_b', 'correlation', **coin_result}]. *)
Record PairResult : Type := mkPair {
  stock_a : string;
  stock_b : string;
  correlation : float;
  coint : CointResult
}.

(** How one iteration of the double loop ends. *)
Inductive Outcome : Type :=
  | SkippedShort                      (* [continue] after the length check *)
  | SkippedCorrelation                (* [continue] after the correlation check *)
  | TestFailed (e : PyException)      (* the [except Exception] branch *)
  | Appended (r : PairResult).        (* [results.append] *)

(** [stock_prices[name]] on the insertion-ordered dictionary. *)
Fixpoint lookup (name : string) (d : list (string * PriceSeries))
    : PriceSeries :=
  match d with
  | [] => []
  | (k, v) :: d' => if String.eqb k name then v else lookup name d'
  end.

(** [for i in range(n): for j in range(i + 1, n)] over a list. *)
Fixpoint pairs {A : Type} (l : list A) : list (A * A) :=
  match l with
  | [] => []
  | x :: l' => map (pair x) l' ++ pairs l'
  end.

(** The test at line 116:
    [len(price_a) < min_periods or len(price_b) < min_periods]. *)
Definition too_short (min_periods : Z) (price_a price_b : PriceSeries) : bool :=
  (Z.of_nat (length price_a) <? min_periods)
  || (Z.of_nat (length price_b) <? min_periods).

(** [results.sort(key=lambda x: x['p_value'])].  Python's sort is stable and
    compares keys with [<]; on keys that [<] orders totally its result is the
    stable sorted arrangement, computed here by insertion. *)
Fixpoint insert_by_p_value (x : PairResult) (l : list PairResult)
    : list PairResult :=
  match l with
  | [] => [x]
  | y :: l' =>
      if PrimFloat.ltb (p_value (coint x)) (p_value (coint y)) then x :: y :: l'
      else y :: insert_by_p_value x l'
  end.

Definition sort_by_p_value (l : list PairResult) : list PairResult :=
  fold_left (fun acc x => insert_by_p_value x acc) l [].

(** "The earlier one has a p-value less than or equal to the later one." *)
Definition p_value_le (x y : PairResult) : Prop :=
  PrimFloat.leb (p_value (coint x)) (p_value (coint y)) = true.

(** The p-value of an entry is a number. *)
Definition has_p_value (r : PairResult) : Prop := not_nan (p_value (coint r)).

Section WithLibraries.

(** pandas' [Series.corr] (Pearson). *)
Variable pearson : list float -> list float -> float.
(** statsmodels' [sm.add_constant(price_b)] followed by
    [OLS(price_a, X).fit()]. *)
Variable ols_fit : PriceSeries -> PriceSeries -> PyException + OLSResults.
(** statsmodels' [adfuller]. *)
Variable adfuller : list float -> PyException + ADFResult.

Definition calculate_correlation (price_a price_b : PriceSeries) : float :=
  let returns_a := returns price_a in
  let returns_b := returns price_b in
  let common_idx := intersection (index returns_a) (index returns_b) in
  pearson (loc returns_a common_idx) (loc returns_b common_idx).

Definition cointegration_test (price_a price_b : PriceSeries)
    : PyException + CointResult :=
  match ols_fit price_a price_b with
  | inl e => inl e
  | inr model =>
      match nth_error (params model) 0, nth_error (params model) 1 with
      | Some alpha, Some beta =>
          let residuals := resid model in
          match adfuller residuals with
          | inl e => inl e
          | inr adf_result =>
              inr (mkCoint (PrimFloat.ltb (adf_pvalue adf_result) 0.05%float)
                           (adf_pvalue adf_result) (adf_stat adf_result)
                           alpha beta
                           (Series.std residuals) (Series.mean residuals)
                           (adf_critical adf_result))
          end
      | _, _ => inl IndexError
      end
  end.

(** Body of the double loop for the names [name_a], [name_b]. *)
Definition scan_pair (stock_prices : list (string * PriceSeries))
    (threshold : float) (min_periods : Z) (name_a name_b : string)
    : Outcome :=
  let price_a := lookup name_a stock_prices in
  let price_b := lookup name_b stock_prices in
  if too_short min_periods price_a price_b then SkippedShort
  else
    let corr := calculate_correlation price_a price_b in
    if PrimFloat.ltb corr threshold then SkippedCorrelation
    else
      match cointegration_test price_a price_b with
      | inr coin_result => Appended (mkPair name_a name_b corr coin_result)
      | inl e => TestFailed e
      end.

(** The [results] list before the final sort. *)
Definition scan_all (stock_prices : list (string * PriceSeries))
    (threshold : float) (min_periods : Z) : list PairResult :=
  flat_map (fun ab => match scan_pair stock_prices threshold min_periods
                              (fst ab) (snd ab) with
                      | Appended r => [r]
                      | _ => []
                      end)
           (pairs (map fst stock_prices)).

Definition find_cointegrated_pairs
    (stock_prices : list (string * PriceSeries))
    (threshold : float) (min_periods : Z) : list PairResult :=
  sort_by_p_value (scan_all stock_prices threshold min_periods).

End WithLibraries.

(** *** Stand-ins for the libraries, and concrete instrument maps

    The statistical routines live in pandas and statsmodels.  To run the
    scanner on concrete maps they are replaced by the stand-ins below, which
    keep the features the statements depend on: the regression refuses two
    series whose indices differ (statsmodels raises [ValueError] on pandas
    inputs that are not aligned), and reported p-values are numbers. *)

Fixpoint index_eqb (ia ib : list Z) : bool :=
  match ia, ib with
  | [], [] => true
  | a :: ia', b :: ib' => (a =? b) && index_eqb ia' ib'
  | _, _ => false
  end.

Definition pearson_stand_in (xs ys : list float) : float :=
  let mx := Series.mean xs in
  let my := Series.mean ys in
  let sxy := Series.fsum (Series.map2 (fun x y =>
               PrimFloat.mul (PrimFloat.sub x mx) (PrimFloat.sub y my)) xs ys) in
  let sxx := Series.fsum (map (fun x =>
               PrimFloat.mul (PrimFloat.sub x mx) (PrimFloat.sub x mx)) xs) in
  let syy := Series.fsum (map (fun y =>
               PrimFloat.mul (PrimFloat.sub y my) (PrimFloat.sub y my)) ys) in
  PrimFloat.div sxy (PrimFloat.sqrt (PrimFloat.mul sxx syy)).

Definition ols_stand_in (price_a price_b : PriceSeries)
    : PyException + OLSResults :=
  if index_eqb (index price_a) (index price_b) then
    let ys := values price_a in
    let xs := values price_b in
    let mx := Series.mean xs in
    let my := Series.mean ys in
    let sxy := Series.fsum (Series.map2 (fun x y =>
                 PrimFloat.mul (PrimFloat.sub x mx) (PrimFloat.sub y my)) xs ys) in
    let sxx := Series.fsum (map (fun x =>
                 PrimFloat.mul (PrimFloat.sub x mx) (PrimFloat.sub x mx)) xs) in
    let slope := PrimFloat.div sxy sxx in
    let intercept := PrimFloat.sub my (PrimFloat.mul slope mx) in
    inr (mkOLS [intercept; slope]
               (Series.map2 (fun y x =>
                  PrimFloat.sub y (PrimFloat.add intercept (PrimFloat.mul slope x)))
                  ys xs))
  else inl (Raised "ValueError"%string).

Definition adfuller_stand_in (residuals : list float)
    : PyException + ADFResult :=
  let size := Series.fsum (map PrimFloat.abs residuals) in
  let p := PrimFloat.div size (PrimFloat.add PrimFloat.one size) in
  inr (mkADF (PrimFloat.opp size)
             (if PrimFloat.is_nan p then PrimFloat.one else p) []).

(** A series over consecutive timestamps starting at [t0]. *)
Definition dated (t0 : Z) (prices : list float) : PriceSeries :=
  combine (map (fun k => t0 + Z.of_nat k) (seq 0 (length prices))) prices.

(** Four instruments; ["D"] starts two steps later than the others, so it
    shares four timestamps with each of them. *)
Definition example_prices : list (string * PriceSeries) :=
  [ ("A"%string, dated 1 [10; 11; 12.5; 13; 14.5; 15]%float);
    ("B"%string, dated 1 [20; 22; 24; 27; 28; 31]%float);
    ("C"%string, dated 1 [5; 5.5; 6.5; 6.5; 7.5; 7.5]%float);
    ("D"%string, dated 3 [30; 33; 36; 39; 42; 45]%float) ].

(** [x['p_value'] == k]: the entries the sort sees as tied at [k]. *)
Definition p_value_eqb (k : float) (r : PairResult) : bool :=
  PrimFloat.eqb (p_value (coint r)) k.

(** Four instruments, two of them copies of the other two, so that several
    pairs come out with the same p-value. *)
Definition tied_prices : list (string * PriceSeries) :=
  [ ("A"%string, dated 1 [10; 11; 12.5; 13; 14.5; 15]%float);
    ("B"%string, dated 1 [20; 22; 24; 27; 28; 31]%float);
    ("C"%string, dated 1 [10; 11; 12.5; 13; 14.5; 15]%float);
    ("D"%string, dated 1 [20; 22; 24; 27; 28; 31]%float) ].

(** Two instruments whose prices never move: every return is 0, so the
    correlation of their returns is 0/0. *)
Definition still_prices : list (string * PriceSeries) :=
  [ ("A"%string, dated 1 [10; 10; 10; 10; 10; 10]%float);
    ("B"%string, dated 1 [20; 20; 20; 20; 20; 20]%float) ].

End Scanner.

(** ** [run_full_analysis] without its input and output *)

Module Pipeline.
Import Scanner.

(** [s.loc[idx]] as a series: the rows of [s] at the labels [idx], in the
    order of [idx].  The labels come from an index intersection, so each of
    them occurs in [s]; a series has no repeated timestamp. *)
Definition loc_series (s : PriceSeries) (idx : list Z) : PriceSeries :=
  flat_map (fun t => match find (fun p => fst p =? t) s with
                     | Some p => [p]
                     | None => []
                     end) idx.

(** The alignment at the head of [run_full_analysis]:
    [common_idx = price_a.index.intersection(price_b.index)], then both
    series restricted to it. *)
Definition align (price_a price_b : PriceSeries) : PriceSeries * PriceSeries :=
  let common_idx := intersection (index price_a) (index price_b) in
  (loc_series price_a common_idx, loc_series price_b common_idx).

(** The two samples [calculate_correlation] hands to [Series.corr]. *)
Definition correlation_samples (price_a price_b : PriceSeries)
    : list float * list float :=
  let returns_a := returns price_a in
  let returns_b := returns price_b in
  let common_idx := intersection (index returns_a) (index returns_b) in
  (loc returns_a common_idx, loc returns_b common_idx).

Section WithLibraries.

Variable power : float -> float -> float.
Variable pearson : list float -> list float -> float.
Variable ols_fit : PriceSeries -> PriceSeries -> PyException + OLSResults.
Variable adfuller : list float -> PyException + ADFResult.

(** [run_full_analysis] from the two loaded [close] series on: alignment,
    correlation (only printed), cointegration test, signals with the default
    stop loss, backtest with the default cost.  The value is the [results]
    dictionary it returns; the lines it prints are left out. *)
Definition run_full_analysis (price_a price_b : PriceSeries)
    (entry_threshold exit_threshold : float)
    : PyException + Backtest.BacktestResult :=
  let common_idx := intersection (index price_a) (index price_b) in
  let price_a := loc_series price_a common_idx in
  let price_b := loc_series price_b common_idx in
  let corr := calculate_correlation pearson price_a price_b in
  match cointegration_test ols_fit adfuller price_a price_b with
  | inl e => inl e
  | inr coin_result =>
      let signals :=
        Signals.generate_trading_signals
          (combine (values price_a) (values price_b))
          (beta coin_result) (alpha coin_result) (resid_std coin_result)
          entry_threshold exit_threshold 3.0 in
      Backtest.backtest_pairs_strategy power signals 0.001
  end.

End WithLibraries.

End Pipeline.

(** ** [schema.py]: the two string enumerations *)

Module Schema.

Inductive LLMProvider : Type := ANTHROPIC | OPENAI.

Inductive MessageRole : Type := SYSTEM | USER | ASSISTANT | TOOL.

(** [member.value]. *)
Definition provider_value (p : LLMProvider) : string :=
  match p with
  | ANTHROPIC => "anthropic"
  | OPENAI => "openai"
  end.

Definition role_value (r : MessageRole) : string :=
  match r with
  | SYSTEM => "system"
  | USER => "user"
  | ASSISTANT => "assistant"
  | TOOL => "tool"
  end.

(** The members in definition order. *)
Definition providers : list LLMProvider := [ANTHROPIC; OPENAI].
Definition roles : list MessageRole := [SYSTEM; USER; ASSISTANT; TOOL].

(** [LLMProvider(v)] and [MessageRole(v)]: the member whose value is [v],
    [ValueError] when there is none. *)
Definition provider_of_value (v : string) : PyException + LLMProvider :=
  match find (fun p => String.eqb (provider_value p) v) providers with
  | Some p => inr p
  | None => inl (Raised "ValueError")
  end.

Definition role_of_value (v : string) : PyException + MessageRole :=
  match find (fun r => String.eqb (role_value r) v) roles with
  | Some r => inr r
  | None => inl (Raised "ValueError")
  end.

End Schema.

(** ** Proof automation *)

(** Case analysis on a position known to be one of the three states. *)
Ltac split_states :=
  repeat match goal with
         | H : Signals.is_state _ |- _ => destruct H as [H | [H | H]]; subst
         end.

(** Case analysis on the integer comparisons inside a comparison of two
    floats given by sign, mantissa and exponent. *)
Ltac order_cases :=
  repeat match goal with
         | H : context [Z.compare ?a ?b] |- _ =>
             destruct (Z.compare_spec a b); subst; simpl in H
         | |- context [Z.compare ?a ?b] =>
             destruct (Z.compare_spec a b); subst; simpl
         | H : context [Pos.compare_cont Eq ?a ?b] |- _ =>
             change (Pos.compare_cont Eq a b) with (Pos.compare a b) in H;
             destruct (Pos.compare_spec a b); subst; simpl in H
         | |- context [Pos.compare_cont Eq ?a ?b] =>
             change (Pos.compare_cont Eq a b) with (Pos.compare a b);
             destruct (Pos.compare_spec a b); subst; simpl
         end;
  try reflexivity; try discriminate; try lia.

(** * Properties *)

(** ** The signal state machine *)

Module SignalFacts.
Import Signals.

Lemma step_is_state entry exit stop p z :
  is_state p -> is_state (step entry exit stop p z).
Proof.
  intros Hp; split_states; unfold step, is_state; simpl;
    repeat match goal with |- context [if ?b then _ else _] => destruct b end;
    lia.
Qed.

Lemma signal_loop_length entry exit stop zs :
  forall p, length (signal_loop entry exit stop p zs) = length zs.
Proof. induction zs as [|z zs IH]; intros p; simpl; [|rewrite IH]; reflexivity. Qed.

Lemma signal_column_length entry exit stop zs :
  length (signal_column entry exit stop zs) = length zs.
Proof.
  destruct zs as [|z zs]; simpl; [|rewrite signal_loop_length]; reflexivity.
Qed.

(** Each value written by the loop is [step] of the value before it. *)
Lemma signal_loop_nth entry exit stop zs :
  forall p t, (t < length zs)%nat ->
    nth t (signal_loop entry exit stop p zs) 0
    = step entry exit stop
        (nth t (p :: signal_loop entry exit stop p zs) 0)
        (nth t zs PrimFloat.nan).
Proof.
  induction zs as [|z zs IH]; intros p t Ht; simpl in Ht; [lia|].
  destruct t as [|t]; [reflexivity|].
  simpl. rewrite IH by lia. reflexivity.
Qed.

Lemma signal_loop_states entry exit stop zs :
  forall p, is_state p -> Forall is_state (signal_loop entry exit stop p zs).
Proof.
  induction zs as [|z zs IH]; intros p Hp; simpl; constructor.
  - now apply step_is_state.
  - apply IH. now apply step_is_state.
Qed.

Lemma signal_column_states entry exit stop zs :
  Forall is_state (signal_column entry exit stop zs).
Proof.
  destruct zs as [|z zs]; simpl; constructor.
  - unfold is_state; lia.
  - apply signal_loop_states. unfold is_state; lia.
Qed.

Lemma signal_column_nth_state entry exit stop zs t :
  is_state (nth t (signal_column entry exit stop zs) 0).
Proof.
  destruct (Nat.lt_ge_cases t (length (signal_column entry exit stop zs))) as [Hlt|Hge].
  - pose proof (signal_column_states entry exit stop zs) as HF.
    rewrite Forall_forall in HF. apply HF. now apply nth_In.
  - rewrite nth_overflow by assumption. unfold is_state; lia.
Qed.

(** Position at index [t >= 1] from the position at [t - 1] and [z_t]. *)
Lemma signal_column_step entry exit stop zs t :
  (1 <= t < length zs)%nat ->
  nth t (signal_column entry exit stop zs) 0
  = step entry exit stop
      (nth (t - 1) (signal_column entry exit stop zs) 0)
      (nth t zs PrimFloat.nan).
Proof.
  intros [H1 Ht]. destruct zs as [|z0 rest]; simpl in Ht; [lia|].
  destruct t as [|t]; [lia|]. simpl.
  replace (t - 0)%nat with t by lia.
  rewrite signal_loop_nth by lia. reflexivity.
Qed.

Lemma map_fst_combine {A B : Type} (a : list A) : forall (b : list B),
  length a = length b -> map fst (combine a b) = a.
Proof.
  induction a as [|x a IH]; intros [|y b] H; simpl in *; try discriminate;
    [reflexivity|].
  f_equal. apply IH. lia.
Qed.

Lemma map_snd_combine {A B : Type} (a : list A) : forall (b : list B),
  length a = length b -> map snd (combine a b) = b.
Proof.
  induction a as [|x a IH]; intros [|y b] H; simpl in *; try discriminate;
    [reflexivity|].
  f_equal. apply IH. lia.
Qed.

(** The [signal] column of the frame that [generate_trading_signals] returns
    is the state machine run on the frame's own [z_score] column. *)
Lemma generate_trading_signals_columns prices beta alpha resid_std
    entry exit stop :
  let rows :=
    generate_trading_signals prices beta alpha resid_std entry exit stop in
  length rows = length prices
  /\ map signal rows = signal_column entry exit stop (map z_score rows).
Proof.
  unfold generate_trading_signals.
  set (spread_col := map _ prices).
  set (z_col := map _ spread_col).
  set (signal_col := signal_column entry exit stop z_col).
  assert (Hs : length spread_col = length prices) by apply length_map.
  assert (Hz : length z_col = length prices)
    by (unfold z_col; rewrite length_map; exact Hs).
  assert (Hg : length signal_col = length prices)
    by (unfold signal_col; rewrite signal_column_length; exact Hz).
  assert (Hl : length (combine prices spread_col)
               = length (combine z_col signal_col))
    by (rewrite !length_combine; lia).
  cbv zeta. split.
  - rewrite length_map, length_combine, !length_combine. lia.
  - rewrite !map_map. cbn [signal z_score].
    rewrite <- (map_map snd snd), <- (map_map snd fst).
    rewrite (map_snd_combine _ _ Hl).
    rewrite map_snd_combine, map_fst_combine by lia. reflexivity.
Qed.

(** C2, as stated, fails: on the scenario's input the machine leaves the
    short-spread position at index 4, so the column is not [0, 0, -1, -1, -1]. *)
Lemma scenario3_not_all_short :
  signal_column 1.2 (-0.8) 3 [0; 0.5; 1.3; 0.9; -0.5]%float = [0; 0; -1; -1; 0]
  /\ signal_column 1.2 (-0.8) 3 [0; 0.5; 1.3; 0.9; -0.5]%float
     <> [0; 0; -1; -1; -1].
Proof. split; [vm_compute; reflexivity | vm_compute; discriminate]. Qed.

(** C2 (amended): for z-scores [0, 0.5, 1.3, 0.9, -0.5] with entry 1.2,
    exit -0.8 and stop_loss 3.0 the position column is [0, 0, -1, -1, 0]:
    short-spread is entered at index 2 ([1.3 > 1.2]), held at index 3
    ([0.9 < -exit = 0.8] is false, and so is [0.9 < -3.0]), and left at
    index 4, where [z = -0.5 < -exit = 0.8]. *)
Theorem scenario3_positions :
  signal_column 1.2 (-0.8) 3 [0; 0.5; 1.3; 0.9; -0.5]%float = [0; 0; -1; -1; 0]
  /\ gtb 1.3 1.2 = true
  /\ PrimFloat.ltb 0.9 (PrimFloat.opp (-0.8)) = false
  /\ PrimFloat.ltb 0.9 (PrimFloat.opp 3) = false
  /\ PrimFloat.ltb (-0.5) (PrimFloat.opp (-0.8)) = true.
Proof. vm_compute. repeat split. Qed.

(** C10: consecutive positions differ by at most one unit, so the machine
    never goes from +1 to -1 (or back) without passing through 0. *)
Theorem position_changes_by_at_most_one entry exit stop zs t :
  (1 <= t < length zs)%nat ->
  let position := signal_column entry exit stop zs in
  Z.abs (nth t position 0 - nth (t - 1) position 0) <= 1
  /\ ~ (nth (t - 1) position 0 = 1 /\ nth t position 0 = -1)
  /\ ~ (nth (t - 1) position 0 = -1 /\ nth t position 0 = 1).
Proof.
  intros Ht position.
  pose proof (signal_column_nth_state entry exit stop zs (t - 1)) as Hprev.
  fold position in Hprev.
  assert (Hstep : nth t position 0
                  = step entry exit stop (nth (t - 1) position 0)
                         (nth t zs PrimFloat.nan))
    by (apply signal_column_step; exact Ht).
  revert Hstep Hprev. generalize (nth (t - 1) position 0) as prev.
  generalize (nth t position 0) as cur. intros cur prev Hstep Hprev.
  subst cur. split_states; unfold step; simpl;
    repeat match goal with |- context [if ?b then _ else _] => destruct b end;
    simpl; lia.
Qed.

(** The theorem at the scenario's input, index 4 (exit from short-spread). *)
Lemma position_changes_by_at_most_one_witness :
  let position := signal_column 1.2 (-0.8) 3 [0; 0.5; 1.3; 0.9; -0.5]%float in
  Z.abs (nth 4 position 0 - nth (4 - 1) position 0) <= 1
  /\ ~ (nth (4 - 1) position 0 = 1 /\ nth 4 position 0 = -1)
  /\ ~ (nth (4 - 1) position 0 = -1 /\ nth 4 position 0 = 1).
Proof.
  apply (position_changes_by_at_most_one 1.2 (-0.8) 3
           [0; 0.5; 1.3; 0.9; -0.5]%float 4).
  simpl; lia.
Defined.

End SignalFacts.

(** ** Floats that count: halving, doubling and adding *)

Module FloatFacts.

(** A valid positive float with exponent at least -52 has a full mantissa. *)
Lemma valid_normal m e :
  valid_binary (S754_finite false m e) = true -> -52 <= e ->
  digits2_pos m = 53%positive /\ e <= 971.
Proof.
  intros Hv He.
  unfold valid_binary, SpecFloat.valid_binary, bounded, canonical_mantissa in Hv.
  apply andb_prop in Hv. destruct Hv as [Hc Hb].
  apply Z.eqb_eq in Hc. apply Z.leb_le in Hb.
  unfold fexp, emin in Hc.
  change (Z.sub (Z.sub 3 emax) prec) with (-1074) in Hc.
  change prec with 53 in Hc, Hb. change emax with 1024 in Hb.
  split; lia.
Qed.

(** The exponent function of binary64 on the normal range. *)
Lemma fexp_normal k : -1021 <= k -> fexp prec emax k = k - 53.
Proof.
  intros Hk. unfold fexp, emin. change prec with 53. change emax with 1024. lia.
Qed.

(** Dividing by 2.0 lowers the exponent by one and keeps the mantissa. *)
Lemma halve_finite m e :
  valid_binary (S754_finite false m e) = true -> -52 <= e ->
  SF64div (S754_finite false m e) (S754_finite false 4503599627370496 (-51))
  = S754_finite false m (e - 1).
Proof.
  intros Hv He. destruct (valid_normal m e Hv He) as [Hd Hb].
  unfold SF64div, SFdiv, SFdiv_core_binary.
  cbn [Zdigits2 xorb]. rewrite Hd.
  change (digits2_pos 4503599627370496) with 53%positive.
  rewrite fexp_normal by lia.
  replace (Z.min (53 + e - (53 + -51) - 53) (e - -51)) with (e - 2) by lia.
  replace (e - -51 - (e - 2)) with 53 by lia.
  replace (Z.div_eucl (Z.shiftl (Z.pos m) 53) 4503599627370496)
    with (Z.pos m~0, 0).
  2:{ symmetry. rewrite Z.shiftl_mul_pow2 by lia.
      change (Z.pos m~0) with (2 * Z.pos m).
      generalize (Z.pos m). intros z.
      pose proof (Z.div_eucl_eq (z * 2 ^ 53) 4503599627370496 ltac:(lia)) as H.
      pose proof (Z.mod_pos_bound (z * 2 ^ 53) 4503599627370496 ltac:(lia)) as Hm.
      unfold Z.modulo in Hm.
      destruct (Z.div_eucl (z * 2 ^ 53) 4503599627370496) as [q r].
      change (2 ^ 53) with 9007199254740992 in H.
      f_equal; lia. }
  change (new_location 4503599627370496 0) with loc_Exact.
  unfold binary_round_aux, shr_fexp.
  cbn [Zdigits2 digits2_pos shr_record_of_loc]. rewrite Hd.
  change (Z.pos (Pos.succ 53)) with 54.
  rewrite fexp_normal by lia.
  replace (54 + (e - 2) - 53 - (e - 2)) with 1 by lia.
  cbn [shr iter_pos shr_1 orb shr_m loc_of_shr_record round_nearest_even Zdigits2].
  rewrite Hd. rewrite fexp_normal by lia.
  replace (53 + (e - 2 + 1) - 53 - (e - 2 + 1)) with 0 by lia.
  cbn [shr shr_m shr_record_of_loc].
  replace (e - 2 + 1 <=? emax - prec) with true
    by (symmetry; apply Z.leb_le; change emax with 1024; change prec with 53; lia).
  f_equal. lia.
Qed.

(** Multiplying by 2.0 raises the exponent by one and keeps the mantissa. *)
Lemma double_finite m e :
  digits2_pos m = 53%positive -> -53 <= e -> e <= 970 ->
  SF64mul (S754_finite false 4503599627370496 (-51)) (S754_finite false m e)
  = S754_finite false m (e + 1).
Proof.
  intros Hd He Hb.
  unfold SF64mul, SFmul. cbn [xorb Pos.mul].
  unfold binary_round_aux, shr_fexp.
  cbn [Zdigits2 digits2_pos shr_record_of_loc]. rewrite Hd.
  match goal with |- context [Z.pos ?p + (-51 + e)] =>
    change (Z.pos p) with 105 end.
  rewrite fexp_normal by lia.
  replace (105 + (-51 + e) - 53 - (-51 + e)) with 52 by lia.
  cbn [shr iter_pos shr_1 orb shr_m loc_of_shr_record round_nearest_even Zdigits2].
  rewrite Hd. rewrite fexp_normal by lia.
  replace (53 + (-51 + e + 52) - 53 - (-51 + e + 52)) with 0 by lia.
  cbn [shr shr_m shr_record_of_loc].
  replace (-51 + e + 52 <=? emax - prec) with true
    by (symmetry; apply Z.leb_le; change emax with 1024; change prec with 53; lia).
  f_equal. lia.
Qed.

(** Rounding never produces a negative mantissa, and never lowers the
    exponent below the one the format assigns to the operand. *)
Lemma iter_pos_invariant {A : Type} (P : A -> Prop) (f : A -> A) :
  (forall x, P x -> P (f x)) -> forall p x, P x -> P (iter_pos f p x).
Proof.
  intros Hf. induction p as [p IH|p IH|]; intros x Hx; simpl; auto.
Qed.

Lemma shr_1_nonneg mrs : 0 <= shr_m mrs -> 0 <= shr_m (shr_1 mrs).
Proof.
  destruct mrs as [m r s]. simpl. intros Hm.
  destruct m as [|p|p]; [simpl; lia| |lia].
  destruct p; simpl; lia.
Qed.

Lemma shr_fexp_bounds m e l :
  0 <= m ->
  0 <= shr_m (fst (shr_fexp prec emax m e l))
  /\ fexp prec emax (Zdigits2 m + e) <= snd (shr_fexp prec emax m e l)
  /\ e <= snd (shr_fexp prec emax m e l).
Proof.
  intros Hm. unfold shr_fexp, shr.
  assert (H0 : 0 <= shr_m (shr_record_of_loc m l))
    by (destruct l as [|[| |]]; exact Hm).
  destruct (fexp prec emax (Zdigits2 m + e) - e) as [|p|p] eqn:En; simpl.
  - repeat split; [exact H0|lia|lia].
  - repeat split; [|lia|lia].
    apply (iter_pos_invariant (fun x => 0 <= shr_m x)); [apply shr_1_nonneg|exact H0].
  - repeat split; [exact H0|lia|lia].
Qed.

Lemma round_nearest_even_nonneg m l : 0 <= m -> 0 <= round_nearest_even m l.
Proof.
  intros Hm. destruct l as [|[| |]]; simpl; try lia.
  destruct (Z.even m); lia.
Qed.

(** Rounding a positive mantissa gives +0, +infinity or a positive float
    whose exponent is at least the format's exponent for the operand. *)
Lemma binary_round_aux_above mx ex lx :
  positive_above (fexp prec emax (Zdigits2 (Z.pos mx) + ex))
                 (binary_round_aux prec emax false (Z.pos mx) ex lx).
Proof.
  unfold binary_round_aux.
  pose proof (shr_fexp_bounds (Z.pos mx) ex lx ltac:(lia)) as (H1 & H2 & _).
  destruct (shr_fexp prec emax (Z.pos mx) ex lx) as [mrs' e'].
  cbn [fst snd] in H1, H2.
  pose proof (shr_fexp_bounds
                (round_nearest_even (shr_m mrs') (loc_of_shr_record mrs'))
                e' loc_Exact
                (round_nearest_even_nonneg _ _ H1)) as (H3 & _ & H4).
  destruct (shr_fexp prec emax _ e' loc_Exact) as [mrs'' e''].
  cbn [fst snd] in H3, H4.
  destruct (shr_m mrs'') as [|p|p] eqn:Em; [exact I| |lia].
  destruct (e'' <=? emax - prec); cbn [positive_above]; [lia|exact I].
Qed.

Lemma digits2_pos_shift m d :
  Z.pos (digits2_pos (Pos.iter xO m d)) = Z.pos (digits2_pos m) + Z.pos d.
Proof.
  induction d as [|d IH] using Pos.peano_ind.
  - simpl. lia.
  - rewrite Pos.iter_succ. simpl. lia.
Qed.

Lemma binary_round_above mx ex :
  positive_above (fexp prec emax (Z.pos (digits2_pos mx) + ex))
                 (binary_round prec emax false mx ex).
Proof.
  unfold binary_round, shl_align.
  destruct (fexp prec emax (Z.pos (digits2_pos mx) + ex) - ex) as [|d|d] eqn:Ed.
  - apply binary_round_aux_above.
  - apply binary_round_aux_above.
  - pose proof (binary_round_aux_above (Pos.iter xO mx d)
                  (fexp prec emax (Z.pos (digits2_pos mx) + ex)) loc_Exact) as H.
    cbn [Zdigits2] in H. rewrite digits2_pos_shift in H.
    replace (Z.pos (digits2_pos mx) + Z.pos d
             + fexp prec emax (Z.pos (digits2_pos mx) + ex))
      with (Z.pos (digits2_pos mx) + ex) in H by lia.
    exact H.
Qed.

(** The float of a non-negative machine integer is +0 or at least 1. *)
Lemma of_uint63_above n : positive_above (-52) (Prim2SF (of_uint63 n)).
Proof.
  rewrite of_uint63_spec. unfold binary_normalize.
  pose proof (Uint63.to_Z_bounded n) as Hn.
  destruct (Uint63.to_Z n) as [|p|p]; [exact I| |lia].
  pose proof (binary_round_above p 0) as H.
  assert (Hf : -52 <= fexp prec emax (Z.pos (digits2_pos p) + 0)).
  { unfold fexp, emin. change prec with 53. change emax with 1024. lia. }
  destruct (binary_round prec emax false p 0) as [[|]|[|]| |[|] m e];
    simpl in *; try exact I; try contradiction; lia.
Qed.

(** The number of binary digits is monotone. *)
Lemma digits2_pos_bounds p :
  2 ^ (Z.pos (digits2_pos p) - 1) <= Z.pos p < 2 ^ Z.pos (digits2_pos p).
Proof.
  induction p as [p IH|p IH|]; cbn [digits2_pos].
  - rewrite Pos2Z.inj_succ. change (Z.pos p~1) with (2 * Z.pos p + 1).
    replace (Z.succ (Z.pos (digits2_pos p)) - 1)
      with (Z.succ (Z.pos (digits2_pos p) - 1)) by lia.
    rewrite !Z.pow_succ_r by lia. lia.
  - rewrite Pos2Z.inj_succ. change (Z.pos p~0) with (2 * Z.pos p).
    replace (Z.succ (Z.pos (digits2_pos p)) - 1)
      with (Z.succ (Z.pos (digits2_pos p) - 1)) by lia.
    rewrite !Z.pow_succ_r by lia. lia.
  - simpl. lia.
Qed.

Lemma digits2_pos_le a b :
  (a <= b)%positive -> Z.pos (digits2_pos a) <= Z.pos (digits2_pos b).
Proof.
  intros Hab.
  destruct (Z.le_gt_cases (Z.pos (digits2_pos a)) (Z.pos (digits2_pos b)))
    as [H|H]; [exact H|exfalso].
  pose proof (digits2_pos_bounds a) as [Ha _].
  pose proof (digits2_pos_bounds b) as [_ Hb].
  assert (Hp : 2 ^ Z.pos (digits2_pos b) <= 2 ^ (Z.pos (digits2_pos a) - 1))
    by (apply Z.pow_le_mono_r; lia).
  lia.
Qed.

Lemma shl_align_digits mx ex ez :
  ez <= ex ->
  Z.pos (digits2_pos (fst (shl_align mx ex ez))) + ez
  = Z.pos (digits2_pos mx) + ex.
Proof.
  intros Hz. unfold shl_align.
  destruct (ez - ex) as [|d|d] eqn:Ed; cbn [fst]; [lia|lia|].
  rewrite digits2_pos_shift. lia.
Qed.

(** Counts are closed under addition. *)
Lemma SFadd_above f1 f2 :
  valid_binary f1 = true -> valid_binary f2 = true ->
  positive_above (-52) f1 -> positive_above (-52) f2 ->
  positive_above (-52) (SF64add f1 f2).
Proof.
  intros V1 V2 H1 H2.
  destruct f1 as [[|]|[|]| |[|] m1 e1]; try contradiction;
    destruct f2 as [[|]|[|]| |[|] m2 e2]; try contradiction;
    try exact I; try exact H1; try exact H2.
  cbn [positive_above] in H1, H2.
  destruct (valid_normal m1 e1 V1 H1) as [D1 _].
  unfold SF64add, SFadd. cbn [cond_Zopp].
  set (ez := Z.min e1 e2).
  pose proof (shl_align_digits m1 e1 ez ltac:(lia)) as Ha.
  set (a := fst (shl_align m1 e1 ez)) in *.
  set (b := fst (shl_align m2 e2 ez)).
  change (Z.pos a + Z.pos b) with (Z.pos (a + b)).
  cbn [binary_normalize].
  pose proof (binary_round_above (a + b) ez) as H.
  pose proof (digits2_pos_le a (a + b) ltac:(lia)) as Hd.
  assert (Hf : -52 <= fexp prec emax (Z.pos (digits2_pos (a + b)) + ez)).
  { unfold fexp, emin. change prec with 53. change emax with 1024.
    rewrite D1 in Ha. lia. }
  destruct (binary_round prec emax false (a + b) ez) as [[|]|[|]| |[|] m e];
    cbn [positive_above] in *; try exact I; try contradiction; lia.
Qed.

Lemma add_counts x y : counts x -> counts y -> counts (x + y)%float.
Proof.
  unfold counts. intros Hx Hy. rewrite add_spec.
  apply SFadd_above; auto using Prim2SF_valid.
Qed.

(** The absolute value of the float of an integer is a count. *)
Lemma abs_float_of_int_counts n : counts (PrimFloat.abs (float_of_int n)).
Proof.
  unfold counts, float_of_int. rewrite abs_spec.
  destruct (n <? 0).
  - rewrite opp_spec.
    pose proof (of_uint63_above (Uint63.of_Z (- n))) as H.
    destruct (Prim2SF (of_uint63 (Uint63.of_Z (- n)))) as [[|]|[|]| |[|] m e];
      cbn in *; try exact I; try contradiction; exact H.
  - pose proof (of_uint63_above (Uint63.of_Z n)) as H.
    destruct (Prim2SF (of_uint63 (Uint63.of_Z n))) as [[|]|[|]| |[|] m e];
      cbn in *; try exact I; try contradiction; exact H.
Qed.

(** The float of an integer is a number. *)
Lemma float_of_int_not_nan n : PrimFloat.is_nan (float_of_int n) = false.
Proof.
  unfold PrimFloat.is_nan, float_of_int. rewrite FloatAxioms.eqb_spec.
  destruct (n <? 0).
  - rewrite opp_spec.
    pose proof (of_uint63_above (Uint63.of_Z (- n))) as H.
    destruct (Prim2SF (of_uint63 (Uint63.of_Z (- n)))) as [[|]|[|]| |[|] m e];
      cbn in *; try reflexivity; try contradiction.
    unfold SFeqb, SFcompare. rewrite Z.compare_refl, Pos.compare_cont_refl. reflexivity.
  - pose proof (of_uint63_above (Uint63.of_Z n)) as H.
    destruct (Prim2SF (of_uint63 (Uint63.of_Z n))) as [[|]|[|]| |[|] m e];
      cbn in *; try reflexivity; try contradiction.
    unfold SFeqb, SFcompare. rewrite Z.compare_refl, Pos.compare_cont_refl. reflexivity.
Qed.

(** A count compares equal to itself. *)
Lemma counts_number x : counts x -> PrimFloat.eqb x x = true.
Proof.
  unfold counts. rewrite FloatAxioms.eqb_spec.
  destruct (Prim2SF x) as [[|]|[|]| |[|] m e]; cbn; try reflexivity; try contradiction.
  intros _. unfold SFeqb, SFcompare.
  rewrite Z.compare_refl, Pos.compare_cont_refl. reflexivity.
Qed.

(** Halving and then doubling such a float gives it back, and the half is
    not negative. *)
Lemma halve_double x :
  counts x ->
  (PrimFloat.two * (x / PrimFloat.two))%float = x
  /\ PrimFloat.leb PrimFloat.zero (x / PrimFloat.two)%float = true.
Proof.
  unfold counts. intros Hx.
  pose proof (Prim2SF_valid x) as Hv.
  assert (H : SF64div (Prim2SF x) (Prim2SF PrimFloat.two)
              = match Prim2SF x with
                | S754_finite s m e => S754_finite s m (e - 1)
                | f => f
                end
              /\ SF64mul (Prim2SF PrimFloat.two)
                   (SF64div (Prim2SF x) (Prim2SF PrimFloat.two))
                 = Prim2SF x).
  { change (Prim2SF PrimFloat.two)
      with (S754_finite false 4503599627370496 (-51)).
    destruct (Prim2SF x) as [[|]|[|]| |[|] m e]; try contradiction;
      try (split; reflexivity).
    cbn [positive_above] in Hx.
    rewrite (halve_finite m e Hv Hx).
    destruct (valid_normal m e Hv Hx) as [Hd Hb].
    split; [reflexivity|].
    rewrite double_finite by lia. f_equal. lia. }
  destruct H as [Hdiv Hmul]. split.
  - apply Prim2SF_inj. rewrite mul_spec, div_spec. exact Hmul.
  - rewrite FloatAxioms.leb_spec, div_spec, Hdiv.
    change (Prim2SF PrimFloat.zero) with (S754_zero false).
    destruct (Prim2SF x) as [[|]|[|]| |[|] m e]; try contradiction; reflexivity.
Qed.

(** The float of an integer's absolute value. *)
Lemma abs_float_of_int n :
  PrimFloat.abs (float_of_int n) = float_of_int (Z.abs n).
Proof.
  unfold float_of_int. destruct (Z.ltb_spec n 0) as [Hn|Hn].
  - replace (Z.abs n <? 0) with false by (symmetry; apply Z.ltb_ge; lia).
    replace (Z.abs n) with (- n) by lia.
    apply Prim2SF_inj. rewrite abs_spec, opp_spec.
    pose proof (of_uint63_above (Uint63.of_Z (- n))) as H.
    destruct (Prim2SF (of_uint63 (Uint63.of_Z (- n)))) as [[|]|[|]| |[|] m e];
      cbn in *; try reflexivity; contradiction.
  - replace (Z.abs n <? 0) with false by (symmetry; apply Z.ltb_ge; lia).
    replace (Z.abs n) with n by lia.
    apply Prim2SF_inj. rewrite abs_spec.
    pose proof (of_uint63_above (Uint63.of_Z n)) as H.
    destruct (Prim2SF (of_uint63 (Uint63.of_Z n))) as [[|]|[|]| |[|] m e];
      cbn in *; try reflexivity; contradiction.
Qed.

Lemma counts_zero : counts PrimFloat.zero.
Proof. exact I. Qed.

(** A left-to-right sum of such floats is one of them. *)
Lemma fsum_counts xs : Forall counts xs -> counts (Series.fsum xs).
Proof.
  unfold Series.fsum. generalize counts_zero. generalize PrimFloat.zero.
  induction xs as [|x xs IH]; intros acc Hacc Hxs; simpl; [exact Hacc|].
  inversion Hxs; subst. apply IH; [apply add_counts; assumption|assumption].
Qed.

End FloatFacts.

(** ** Columns: lengths and cell-by-cell values *)

Module SeriesFacts.
Import Series.

Lemma nth_map_lt {A B : Type} (f : A -> B) (l : list A) (t : nat) (d : A) (d' : B) :
  (t < length l)%nat -> nth t (map f l) d' = f (nth t l d).
Proof.
  intros Ht. rewrite (nth_indep _ d' (f d)) by (rewrite length_map; exact Ht).
  apply map_nth.
Qed.

Lemma map2_length {A B C : Type} (f : A -> B -> C) xs ys :
  length (map2 f xs ys) = Nat.min (length xs) (length ys).
Proof. unfold map2. rewrite length_map. apply length_combine. Qed.

Lemma combine_nth_both {A B : Type} (xs : list A) (ys : list B) t dx dy :
  (t < length xs)%nat -> (t < length ys)%nat ->
  nth t (combine xs ys) (dx, dy) = (nth t xs dx, nth t ys dy).
Proof.
  revert ys t; induction xs as [|x xs IH]; intros ys t Hx Hy; simpl in Hx; [lia|].
  destruct ys as [|y ys]; simpl in Hy; [lia|].
  destruct t as [|t]; [reflexivity|].
  simpl. apply IH; lia.
Qed.

Lemma map2_nth {A B C : Type} (f : A -> B -> C) xs ys t dx dy d :
  (t < length xs)%nat -> (t < length ys)%nat ->
  nth t (map2 f xs ys) d = f (nth t xs dx) (nth t ys dy).
Proof.
  intros Hx Hy. unfold map2.
  rewrite (nth_map_lt _ _ t (dx, dy)) by (rewrite length_combine; lia).
  rewrite combine_nth_both by assumption. reflexivity.
Qed.

Lemma removelast_nth {A : Type} (l : list A) t d :
  (t + 1 < length l)%nat -> nth t (removelast l) d = nth t l d.
Proof.
  revert t; induction l as [|x l IH]; intros t Ht; simpl in Ht; [lia|].
  destruct l as [|y l]; [simpl in Ht; lia|].
  destruct t as [|t]; [reflexivity|].
  change (nth t (removelast (y :: l)) d = nth t (y :: l) d).
  apply IH. simpl in *; lia.
Qed.

Lemma removelast_length {A : Type} (l : list A) :
  length (removelast l) = (length l - 1)%nat.
Proof.
  induction l as [|x l IH]; [reflexivity|].
  destruct l as [|y l]; [reflexivity|].
  change (S (length (removelast (y :: l))) = (length (x :: y :: l) - 1)%nat).
  rewrite IH. simpl. lia.
Qed.

Lemma shift1_length xs : length (shift1 xs) = length xs.
Proof.
  destruct xs as [|x xs]; [reflexivity|].
  unfold shift1. cbn [length]. rewrite removelast_length. simpl. lia.
Qed.

Lemma shift1_nth xs t d :
  (1 <= t < length xs)%nat -> nth t (shift1 xs) d = nth (t - 1) xs d.
Proof.
  intros [H1 Ht]. destruct xs as [|x xs]; [simpl in Ht; lia|].
  destruct t as [|t]; [lia|].
  replace (S t - 1)%nat with t by lia.
  change (nth t (removelast (x :: xs)) d = nth t (x :: xs) d).
  apply removelast_nth. lia.
Qed.

Lemma fillna_length v xs : length (fillna v xs) = length xs.
Proof. apply length_map. Qed.

Lemma diff_int_length xs : length (diff_int xs) = length xs.
Proof.
  destruct xs as [|x xs]; [reflexivity|].
  unfold diff_int. cbn [length]. rewrite map2_length. simpl. lia.
Qed.

Lemma diff_int_nth xs t :
  (1 <= t < length xs)%nat ->
  nth t (diff_int xs) PrimFloat.nan
  = float_of_int (nth t xs 0 - nth (t - 1) xs 0).
Proof.
  intros [H1 Ht]. destruct xs as [|x xs]; [simpl in Ht; lia|].
  destruct t as [|t]; [lia|].
  replace (S t - 1)%nat with t by lia. simpl in Ht.
  change (nth t (map2 (fun a prev => float_of_int (a - prev)) xs (x :: xs))
              PrimFloat.nan
          = float_of_int (nth t xs 0 - nth t (x :: xs) 0)).
  rewrite (map2_nth _ _ _ t 0 0) by (simpl; lia). reflexivity.
Qed.

Lemma pct_change_length xs : length (pct_change xs) = length xs.
Proof. unfold pct_change. rewrite map2_length, shift1_length. lia. Qed.

Lemma pct_change_nth xs t :
  (1 <= t < length xs)%nat ->
  nth t (pct_change xs) PrimFloat.nan
  = PrimFloat.sub (PrimFloat.div (nth t xs PrimFloat.nan)
                                 (nth (t - 1) xs PrimFloat.nan))
                  PrimFloat.one.
Proof.
  intros Ht. unfold pct_change.
  rewrite (map2_nth _ _ _ t PrimFloat.nan PrimFloat.nan)
    by (rewrite ?shift1_length; lia).
  rewrite shift1_nth by exact Ht. reflexivity.
Qed.

Lemma cumprod_from_length xs : forall acc, length (cumprod_from acc xs) = length xs.
Proof.
  induction xs as [|x xs IH]; intros acc; [reflexivity|].
  simpl. destruct (PrimFloat.is_nan x); simpl; rewrite IH; reflexivity.
Qed.

Lemma cumprod_length xs : length (cumprod xs) = length xs.
Proof. apply cumprod_from_length. Qed.

Lemma iloc_last_nonempty xs :
  (0 < length xs)%nat -> exists v, iloc_last xs = inr v.
Proof. destruct xs; simpl; intros H; [lia|eauto]. Qed.

End SeriesFacts.

(** ** The backtest *)

Module BacktestFacts.
Import Series SeriesFacts Backtest.

(** A float that compares equal to zero is not greater than zero. *)
Lemma eqb_zero_not_gtb (v : float) :
  PrimFloat.eqb v PrimFloat.zero = true -> gtb v PrimFloat.zero = false.
Proof.
  unfold gtb. rewrite eqb_spec, ltb_spec.
  change (Prim2SF PrimFloat.zero) with (S754_zero false).
  destruct (Prim2SF v) as [s| s | |s m e]; simpl; try reflexivity; try discriminate;
    unfold SFeqb, SFltb; simpl; destruct s; discriminate.
Qed.

Lemma lagged_position_length signal_col :
  length (lagged_position signal_col) = length signal_col.
Proof.
  unfold lagged_position. rewrite fillna_length, shift1_length. apply length_map.
Qed.

Lemma position_changes_length signal_col :
  length (position_changes signal_col) = length signal_col.
Proof. unfold position_changes. rewrite length_map. apply diff_int_length. Qed.

Lemma net_returns_column_length signal_col returns_a returns_b tc :
  length returns_a = length signal_col ->
  length returns_b = length signal_col ->
  length (net_returns_column signal_col returns_a returns_b tc)
  = length signal_col.
Proof.
  intros Ha Hb. unfold net_returns_column, spread_returns, costs.
  rewrite !map2_length, length_map, lagged_position_length,
    position_changes_length. lia.
Qed.

Lemma lagged_position_first signal_col :
  (0 < length signal_col)%nat ->
  nth 0 (lagged_position signal_col) PrimFloat.nan = PrimFloat.zero.
Proof. destruct signal_col; simpl; [lia|reflexivity]. Qed.

(** Below the first row [fillna] finds nothing to fill: the shifted cells
    are floats of integers. *)
Lemma lagged_position_nth signal_col t :
  (1 <= t < length signal_col)%nat ->
  nth t (lagged_position signal_col) PrimFloat.nan
  = float_of_int (nth (t - 1) signal_col 0).
Proof.
  intros Ht. unfold lagged_position, fillna.
  rewrite (nth_map_lt _ _ t PrimFloat.nan)
    by (rewrite shift1_length, length_map; lia).
  rewrite shift1_nth by (rewrite length_map; exact Ht).
  rewrite (nth_map_lt float_of_int _ (t - 1) 0) by lia.
  rewrite FloatFacts.float_of_int_not_nan. reflexivity.
Qed.

(** Below the first row the change column holds the floats of
    [|s_t - s_(t-1)|]. *)
Lemma position_changes_nth signal_col t :
  (1 <= t < length signal_col)%nat ->
  nth t (position_changes signal_col) PrimFloat.nan
  = float_of_int (Z.abs (nth t signal_col 0 - nth (t - 1) signal_col 0)).
Proof.
  intros Ht. unfold position_changes.
  rewrite (nth_map_lt _ _ t PrimFloat.nan) by (rewrite diff_int_length; lia).
  rewrite diff_int_nth by exact Ht. apply FloatFacts.abs_float_of_int.
Qed.

(** Net return at a row that has a predecessor. *)
Lemma net_returns_column_nth signal_col returns_a returns_b tc t :
  length returns_a = length signal_col ->
  length returns_b = length signal_col ->
  (1 <= t < length signal_col)%nat ->
  nth t (net_returns_column signal_col returns_a returns_b tc) PrimFloat.nan
  = PrimFloat.sub
      (PrimFloat.mul (float_of_int (nth (t - 1) signal_col 0))
         (PrimFloat.sub (nth t returns_a PrimFloat.nan)
                        (nth t returns_b PrimFloat.nan)))
      (PrimFloat.mul
         (float_of_int (Z.abs (nth t signal_col 0 - nth (t - 1) signal_col 0)))
         tc).
Proof.
  intros Ha Hb Ht. unfold net_returns_column, spread_returns, costs.
  pose proof (lagged_position_length signal_col) as Hl.
  pose proof (position_changes_length signal_col) as Hc.
  rewrite (map2_nth _ _ _ t PrimFloat.nan PrimFloat.nan)
    by (rewrite ?map2_length, ?length_map; lia).
  rewrite (map2_nth _ _ _ t PrimFloat.nan PrimFloat.nan)
    by (rewrite ?map2_length; lia).
  rewrite (map2_nth _ _ _ t PrimFloat.nan PrimFloat.nan) by lia.
  rewrite lagged_position_nth by exact Ht.
  rewrite (nth_map_lt _ _ t PrimFloat.nan) by lia.
  rewrite position_changes_nth by exact Ht. reflexivity.
Qed.

(** Every cell of the change column is NaN (the first row) or a count. *)
Lemma position_changes_cells signal_col d :
  In d (position_changes signal_col) ->
  PrimFloat.is_nan d = true \/ counts d.
Proof.
  unfold position_changes. destruct signal_col as [|s0 rest]; [intros []|].
  cbn [diff_int map]. intros [<- | Hd]; [left; reflexivity|right].
  apply in_map_iff in Hd. destruct Hd as (x & <- & Hx).
  unfold map2 in Hx. apply in_map_iff in Hx. destruct Hx as (ab & <- & _).
  apply FloatFacts.abs_float_of_int_counts.
Qed.

(** [position_changes.sum()] is +0, +infinity, or at least 1. *)
Lemma position_changes_sum_counts signal_col :
  counts (Series.sum (position_changes signal_col)).
Proof.
  unfold Series.sum. apply FloatFacts.fsum_counts.
  apply Forall_forall. intros d Hd. unfold dropna in Hd.
  apply filter_In in Hd. destruct Hd as [Hin Hnan].
  destruct (position_changes_cells signal_col d Hin) as [H|H]; [|exact H].
  rewrite H in Hnan. discriminate Hnan.
Qed.

Section WithPower.

Variable power : float -> float -> float.

Lemma net_of_length signals tc : length (net_of signals tc) = length signals.
Proof.
  unfold net_of. rewrite net_returns_column_length;
    rewrite ?pct_change_length, ?length_map; reflexivity.
Qed.

(** What a returned record holds. *)
Lemma backtest_fields signals tc res :
  backtest_pairs_strategy power signals tc = inr res ->
  net_returns res = net_of signals tc
  /\ num_trades res
     = PrimFloat.div
         (Series.sum (position_changes (map Signals.signal signals)))
         (float_of_int 2)
  /\ volatility res
     = PrimFloat.mul (std (net_of signals tc)) (PrimFloat.sqrt (float_of_int 252))
  /\ sharpe_ratio res
     = (if gtb (volatility res) PrimFloat.zero
        then PrimFloat.div (annual_return res) (volatility res)
        else PrimFloat.zero).
Proof.
  unfold backtest_pairs_strategy. fold (net_of signals tc).
  destruct (iloc_last _) as [e|total]; intros H; inversion H; subst; clear H.
  simpl. repeat split.
Qed.

Lemma backtest_returns_iff signals tc :
  (exists res, backtest_pairs_strategy power signals tc = inr res)
  <-> signals <> [].
Proof.
  split.
  - intros [res H] ->. discriminate H.
  - intros Hne. unfold backtest_pairs_strategy. fold (net_of signals tc).
    set (cumulative := map _ (cumprod _)).
    assert (Hlen : length cumulative = length signals).
    { unfold cumulative. rewrite length_map, cumprod_length, length_map.
      apply net_of_length. }
    destruct signals as [|r rest]; [congruence|].
    destruct (iloc_last_nonempty cumulative) as [v Hv]; [rewrite Hlen; simpl; lia|].
    rewrite Hv. eauto.
Qed.

(** C3 (amended): the position attributed at row [t] is the one held at row
    [t - 1] (0 at the first row); the spread return is that position times
    [returnA_t - returnB_t], the cost is [|position_t - position_(t-1)|]
    times the cost rate, and the net return is their difference.  For the
    position column [0, 0, 1, 1, 0], return spread [0, 0, 0.01, -0.02, 0]
    and cost rate 0.001 the net return is [-0.001] at index 2 (the position
    held at index 1 is 0, so only the entry cost is charged) and [-0.001] at
    index 4. *)
Theorem backtest_attribution_lagged :
  (forall signals tc res t,
      backtest_pairs_strategy power signals tc = inr res ->
      (1 <= t < length signals)%nat ->
      let position k := Signals.signal (nth k signals no_row) in
      let return_a :=
        PrimFloat.sub
          (PrimFloat.div (Signals.price_a (nth t signals no_row))
                         (Signals.price_a (nth (t - 1) signals no_row)))
          PrimFloat.one in
      let return_b :=
        PrimFloat.sub
          (PrimFloat.div (Signals.price_b (nth t signals no_row))
                         (Signals.price_b (nth (t - 1) signals no_row)))
          PrimFloat.one in
      nth 0 (lagged_position (map Signals.signal signals)) PrimFloat.nan
      = PrimFloat.zero
      /\ nth t (lagged_position (map Signals.signal signals)) PrimFloat.nan
         = float_of_int (position (t - 1)%nat)
      /\ nth t (costs (map Signals.signal signals) tc) PrimFloat.nan
         = PrimFloat.mul
             (float_of_int (Z.abs (position t - position (t - 1)%nat))) tc
      /\ nth t (net_returns res) PrimFloat.nan
         = PrimFloat.sub
             (PrimFloat.mul (float_of_int (position (t - 1)%nat))
                            (PrimFloat.sub return_a return_b))
             (PrimFloat.mul
                (float_of_int (Z.abs (position t - position (t - 1)%nat))) tc))
  /\ (let net :=
        net_returns_column [0; 0; 1; 1; 0] [0; 0; 0.01; -0.02; 0]%float
                           [0; 0; 0; 0; 0]%float 0.001 in
      nth 2 net PrimFloat.nan = (-0.001)%float
      /\ nth 4 net PrimFloat.nan = (-0.001)%float).
Proof.
  split; [|vm_compute; split; reflexivity].
  intros signals tc res t Hres Ht position return_a return_b.
  destruct (backtest_fields signals tc res Hres) as (Hnet & _).
  assert (Hs : forall k, (k < length signals)%nat ->
                nth k (map Signals.signal signals) 0 = position k).
  { intros k Hk. apply nth_map_lt. exact Hk. }
  assert (Hlen : length (map Signals.signal signals) = length signals)
    by apply length_map.
  repeat split.
  - apply lagged_position_first. rewrite Hlen. lia.
  - rewrite lagged_position_nth by (rewrite Hlen; exact Ht).
    rewrite Hs by lia. reflexivity.
  - unfold costs.
    rewrite (nth_map_lt _ _ t PrimFloat.nan)
      by (rewrite position_changes_length, Hlen; lia).
    rewrite position_changes_nth by (rewrite Hlen; exact Ht).
    rewrite !Hs by lia. reflexivity.
  - rewrite Hnet. unfold net_of.
    rewrite net_returns_column_nth
      by (rewrite ?pct_change_length, ?length_map; try reflexivity; exact Ht).
    rewrite !pct_change_nth by (rewrite length_map; exact Ht).
    rewrite !Hs by lia.
    rewrite !(nth_map_lt _ _ _ no_row) by lia.
    reflexivity.
Qed.

(** C5: the backtest raises exactly on a frame with no rows, and what it
    raises there is the [IndexError] of [cumulative_returns.iloc[-1]]; on
    every frame with at least one row it returns a result record. *)
Theorem backtest_fails_iff_empty signals tc :
  (forall e, backtest_pairs_strategy power signals tc = inl e
             <-> signals = [] /\ e = IndexError)
  /\ ((exists res, backtest_pairs_strategy power signals tc = inr res)
      <-> signals <> []).
Proof.
  split; [|apply backtest_returns_iff].
  intros e; split.
  - intros He. destruct signals as [|r rest].
    + split; [reflexivity|]. vm_compute in He. congruence.
    + assert (Hne : r :: rest <> []) by discriminate.
      destruct (proj2 (backtest_returns_iff (r :: rest) tc) Hne) as [res Hres].
      congruence.
  - intros [-> ->]. reflexivity.
Qed.

(** C7: the Sharpe ratio is [annual_return / volatility] when the volatility
    is strictly positive and exactly 0 otherwise, in particular when the
    volatility is 0: the division is evaluated only under a positive
    divisor. *)
Theorem sharpe_ratio_guarded signals tc res :
  backtest_pairs_strategy power signals tc = inr res ->
  sharpe_ratio res
  = (if gtb (volatility res) PrimFloat.zero
     then PrimFloat.div (annual_return res) (volatility res)
     else PrimFloat.zero)
  /\ (gtb (volatility res) PrimFloat.zero = true ->
      sharpe_ratio res = PrimFloat.div (annual_return res) (volatility res))
  /\ (PrimFloat.eqb (volatility res) PrimFloat.zero = true ->
      gtb (volatility res) PrimFloat.zero = false
      /\ sharpe_ratio res = PrimFloat.zero).
Proof.
  intros Hres. destruct (backtest_fields signals tc res Hres) as (_ & _ & _ & Hs).
  split; [exact Hs|]. split.
  - intros Hpos. rewrite Hs, Hpos. reflexivity.
  - intros Hz. apply eqb_zero_not_gtb in Hz. split; [exact Hz|].
    rewrite Hs, Hz. reflexivity.
Qed.

(** C9: twice the trade count equals the sum over the rows of
    [|position_t - position_(t-1)|] - the sum of the change column, whose
    cell at every row [t >= 1] is that absolute difference - and the trade
    count is not negative.  Both in the program's [float64] arithmetic. *)
Theorem trade_count_is_half_changes signals tc res :
  backtest_pairs_strategy power signals tc = inr res ->
  let position k := Signals.signal (nth k signals no_row) in
  let changes := position_changes (map Signals.signal signals) in
  (forall t, (1 <= t < length signals)%nat ->
     nth t changes PrimFloat.nan
     = float_of_int (Z.abs (position t - position (t - 1)%nat)))
  /\ PrimFloat.eqb (PrimFloat.mul (float_of_int 2) (num_trades res))
                   (Series.sum changes) = true
  /\ PrimFloat.leb PrimFloat.zero (num_trades res) = true.
Proof.
  intros Hres position changes.
  destruct (backtest_fields signals tc res Hres) as (_ & Hn & _).
  fold changes in Hn.
  pose proof (position_changes_sum_counts (map Signals.signal signals)) as Hc.
  fold changes in Hc.
  destruct (FloatFacts.halve_double _ Hc) as [Hback Hpos].
  change PrimFloat.two with (float_of_int 2) in Hback, Hpos.
  split; [|split].
  - intros t Ht. unfold changes.
    rewrite position_changes_nth by (rewrite length_map; exact Ht).
    rewrite !(nth_map_lt _ _ _ no_row) by lia. reflexivity.
  - rewrite Hn, Hback. apply FloatFacts.counts_number. exact Hc.
  - rewrite Hn. exact Hpos.
Qed.

End WithPower.

(** C3, as stated, fails at index 2: with the position column
    [0, 0, 1, 1, 0] the position attributed there is the 0 held at index 1,
    so the net return is [-0.001], not [0.01 - 0.001].  Reading the
    scenario's column as the lagged one does not give [0.009] either: it is
    the lag of the signal column [0, 1, 1, 0, 0], which does not change at
    index 2, so no cost is charged there and the net return is [0.01]. *)
Lemma scenario4_index2_not_0009 :
  let net :=
    net_returns_column [0; 0; 1; 1; 0] [0; 0; 0.01; -0.02; 0]%float
                       [0; 0; 0; 0; 0]%float 0.001 in
  let net_if_lagged :=
    net_returns_column [0; 1; 1; 0; 0] [0; 0; 0.01; -0.02; 0]%float
                       [0; 0; 0; 0; 0]%float 0.001 in
  nth 2 net PrimFloat.nan = (-0.001)%float
  /\ PrimFloat.eqb (nth 2 net PrimFloat.nan) 0.009 = false
  /\ PrimFloat.eqb (nth 2 net PrimFloat.nan) (0.01 - 0.001) = false
  /\ lagged_position [0; 1; 1; 0; 0] = [0; 0; 1; 1; 0]%float
  /\ nth 2 net_if_lagged PrimFloat.nan = 0.01%float
  /\ PrimFloat.eqb (nth 2 net_if_lagged PrimFloat.nan) 0.009 = false.
Proof. vm_compute. repeat split. Qed.

(** The attribution theorem on a year that opens with the scenario's
    position column. *)
Lemma backtest_attribution_lagged_witness :
  exists res,
    backtest_pairs_strategy power_one round_trip_year 0.001 = inr res
    /\ (1 <= 2 < length round_trip_year)%nat
    /\ nth 2 (net_returns res) PrimFloat.nan = (-0.001)%float.
Proof.
  destruct (backtest_pairs_strategy power_one round_trip_year 0.001)
    as [e|res] eqn:E; [vm_compute in E; discriminate|].
  exists res. split; [reflexivity|].
  assert (Ht : (1 <= 2 < length round_trip_year)%nat) by (simpl; lia).
  split; [exact Ht|].
  destruct (proj1 (backtest_attribution_lagged power_one)
              round_trip_year 0.001%float res 2%nat E Ht) as (_ & _ & _ & H).
  rewrite H. vm_compute. reflexivity.
Defined.

(** The Sharpe guard on a year without any return: volatility 0, ratio 0. *)
Lemma sharpe_ratio_guarded_witness :
  exists res,
    backtest_pairs_strategy power_one flat_year 0.001 = inr res
    /\ PrimFloat.eqb (volatility res) PrimFloat.zero = true
    /\ sharpe_ratio res = PrimFloat.zero.
Proof.
  destruct (backtest_pairs_strategy power_one flat_year 0.001)
    as [e|res] eqn:E; [vm_compute in E; discriminate|].
  exists res. split; [reflexivity|].
  assert (Hz : PrimFloat.eqb (volatility res) PrimFloat.zero = true).
  { vm_compute in E. inversion E. reflexivity. }
  split; [exact Hz|].
  destruct (sharpe_ratio_guarded power_one flat_year 0.001 res E)
    as (_ & _ & H).
  exact (proj2 (H Hz)).
Defined.

(** The Sharpe ratio on a year with a positive volatility. *)
Example sharpe_ratio_positive_volatility :
  exists res,
    backtest_pairs_strategy power_one round_trip_year 0.001 = inr res
    /\ gtb (volatility res) PrimFloat.zero = true
    /\ sharpe_ratio res = PrimFloat.div (annual_return res) (volatility res).
Proof.
  destruct (backtest_pairs_strategy power_one round_trip_year 0.001)
    as [e|res] eqn:E; [vm_compute in E; discriminate|].
  exists res. split; [reflexivity|].
  vm_compute in E. inversion E. split; reflexivity.
Qed.

(** One round trip (an entry and an exit) counts as one trade. *)
Lemma trade_count_is_half_changes_witness :
  exists res,
    backtest_pairs_strategy power_one round_trip_year 0.001 = inr res
    /\ num_trades res = 1%float
    /\ Series.sum (position_changes (map Signals.signal round_trip_year))
       = 2%float
    /\ PrimFloat.eqb
         (PrimFloat.mul (float_of_int 2) (num_trades res))
         (Series.sum (position_changes (map Signals.signal round_trip_year)))
       = true
    /\ PrimFloat.leb PrimFloat.zero (num_trades res) = true.
Proof.
  destruct (backtest_pairs_strategy power_one round_trip_year 0.001)
    as [e|res] eqn:E; [vm_compute in E; discriminate|].
  exists res. split; [reflexivity|].
  split; [vm_compute in E; inversion E; reflexivity|].
  split; [vm_compute; reflexivity|].
  exact (proj2 (trade_count_is_half_changes power_one round_trip_year
                  0.001%float res E)).
Defined.

End BacktestFacts.

(** ** Order of floats that are numbers *)

Module FloatOrder.

Lemma SFcompare_antisym f1 f2 :
  SFcompare f2 f1 = option_map CompOpp (SFcompare f1 f2).
Proof.
  destruct f1 as [s1|s1| |s1 m1 e1], f2 as [s2|s2| |s2 m2 e2]; simpl;
    try reflexivity;
    try (destruct s1; reflexivity); try (destruct s2; reflexivity);
    try (destruct s1, s2; reflexivity).
  destruct s1, s2; simpl; try reflexivity; f_equal; order_cases.
Qed.

Lemma SFleb_trans f1 f2 f3 :
  SFleb f1 f2 = true -> SFleb f2 f3 = true -> SFleb f1 f3 = true.
Proof.
  unfold SFleb.
  destruct f1 as [s1|s1| |s1 m1 e1], f2 as [s2|s2| |s2 m2 e2],
           f3 as [s3|s3| |s3 m3 e3]; simpl;
    try discriminate; try reflexivity;
    try (destruct s1; simpl; try discriminate; try reflexivity);
    try (destruct s2; simpl; try discriminate; try reflexivity);
    try (destruct s3; simpl; try discriminate; try reflexivity);
    intros H12 H23; order_cases.
Qed.

Lemma not_nan_spec x : not_nan x -> Prim2SF x <> S754_nan.
Proof.
  unfold not_nan, PrimFloat.is_nan. rewrite FloatAxioms.eqb_spec. intros H E.
  rewrite E in H. discriminate H.
Qed.

(** On numbers, [x < y] failing means [y <= x]. *)
Lemma ltb_false_leb x y :
  not_nan x -> not_nan y ->
  PrimFloat.ltb x y = false -> PrimFloat.leb y x = true.
Proof.
  intros Hx Hy. apply not_nan_spec in Hx, Hy.
  rewrite FloatAxioms.ltb_spec, FloatAxioms.leb_spec. unfold SFltb, SFleb.
  rewrite (SFcompare_antisym (Prim2SF x) (Prim2SF y)).
  destruct (SFcompare (Prim2SF x) (Prim2SF y)) as [[| |]|] eqn:E; simpl;
    try reflexivity; try discriminate.
  intros _. destruct (Prim2SF x), (Prim2SF y); simpl in E; congruence.
Qed.

Lemma ltb_leb x y : PrimFloat.ltb x y = true -> PrimFloat.leb x y = true.
Proof.
  rewrite FloatAxioms.ltb_spec, FloatAxioms.leb_spec. unfold SFltb, SFleb.
  destruct (SFcompare _ _) as [[| |]|]; congruence.
Qed.

Lemma leb_trans x y z :
  PrimFloat.leb x y = true -> PrimFloat.leb y z = true ->
  PrimFloat.leb x z = true.
Proof. rewrite !FloatAxioms.leb_spec. apply SFleb_trans. Qed.

End FloatOrder.

(** ** The pair scanner *)

Module ScannerFacts.
Import Scanner FloatOrder.

(** *** The sort *)

Lemma insert_in x l r :
  In r (insert_by_p_value x l) <-> r = x \/ In r l.
Proof.
  induction l as [|y l IH]; simpl.
  - intuition.
  - destruct (PrimFloat.ltb _ _); simpl; [intuition|].
    rewrite IH. intuition.
Qed.

Lemma sort_fold_in l : forall acc r,
  In r (fold_left (fun acc x => insert_by_p_value x acc) l acc)
  <-> In r l \/ In r acc.
Proof.
  induction l as [|x l IH]; intros acc r; simpl; [intuition|].
  rewrite IH, insert_in. intuition.
Qed.

Lemma sort_in l r : In r (sort_by_p_value l) <-> In r l.
Proof. unfold sort_by_p_value. rewrite sort_fold_in. simpl. intuition. Qed.

Lemma insert_sorted x l :
  has_p_value x -> Forall has_p_value l ->
  StronglySorted p_value_le l ->
  StronglySorted p_value_le (insert_by_p_value x l).
Proof.
  intros Hx Hl Hs. induction Hs as [|y l Hs IH Hy]; simpl.
  - constructor; constructor.
  - inversion Hl as [|? ? Hny Hnl]; subst.
    destruct (PrimFloat.ltb (p_value (coint x)) (p_value (coint y))) eqn:E.
    + constructor; [constructor; assumption|].
      apply ltb_leb in E. constructor; [exact E|].
      rewrite Forall_forall in Hy |- *. intros z Hz.
      exact (leb_trans _ _ _ E (Hy z Hz)).
    + constructor; [apply IH; assumption|].
      rewrite Forall_forall in Hy |- *. intros z Hz.
      apply insert_in in Hz. destruct Hz as [-> | Hz]; [|exact (Hy z Hz)].
      apply ltb_false_leb; assumption.
Qed.

Lemma sort_fold_sorted l : forall acc,
  Forall has_p_value l -> Forall has_p_value acc ->
  StronglySorted p_value_le acc ->
  StronglySorted p_value_le
    (fold_left (fun acc x => insert_by_p_value x acc) l acc).
Proof.
  induction l as [|x l IH]; intros acc Hl Hacc Hs; simpl; [exact Hs|].
  inversion Hl as [|? ? Hx Hl']; subst.
  apply IH; [exact Hl'| |apply insert_sorted; assumption].
  rewrite Forall_forall in Hacc |- *. intros z Hz.
  apply insert_in in Hz. destruct Hz as [-> | Hz]; [exact Hx|exact (Hacc z Hz)].
Qed.

Lemma sort_sorted l :
  Forall has_p_value l -> StronglySorted p_value_le (sort_by_p_value l).
Proof.
  intros Hl. apply sort_fold_sorted; [exact Hl|constructor|constructor].
Qed.

(** In a strongly sorted list every earlier entry is below every later one. *)
Lemma strongly_sorted_nth_error {A : Type} (R : A -> A -> Prop) l :
  StronglySorted R l ->
  forall i j x y, (i < j)%nat ->
    nth_error l i = Some x -> nth_error l j = Some y -> R x y.
Proof.
  induction 1 as [|a l Hs IH Ha]; intros i j x y Hij Hi Hj.
  - destruct i; discriminate Hi.
  - destruct j as [|j]; [lia|]. simpl in Hj.
    destruct i as [|i]; simpl in Hi.
    + inversion Hi; subst. rewrite Forall_forall in Ha.
      apply Ha. eapply nth_error_In; exact Hj.
    + apply (IH i j); [lia|assumption|assumption].
Qed.

(** *** The alignment of a series with itself *)

Lemma intersection_self ia : intersection ia ia = ia.
Proof.
  unfold intersection. apply forallb_filter_id.
  apply forallb_forall. intros t Ht. apply existsb_exists.
  exists t. split; [exact Ht|apply Z.eqb_refl].
Qed.

Lemma index_length (s : PriceSeries) : length (index s) = length s.
Proof. apply length_map. Qed.

Lemma index_eqb_eq ia : forall ib, index_eqb ia ib = true -> ia = ib.
Proof.
  induction ia as [|a ia IH]; intros [|b ib] H; simpl in H;
    try discriminate; [reflexivity|].
  apply andb_true_iff in H. destruct H as [Hab H].
  apply Z.eqb_eq in Hab. subst. f_equal. apply IH. exact H.
Qed.

(** *** The scan *)

Section WithLibraries.

Variable pearson : list float -> list float -> float.
Variable ols_fit : PriceSeries -> PriceSeries -> PyException + OLSResults.
Variable adfuller : list float -> PyException + ADFResult.

Lemma cointegration_test_ok price_a price_b c :
  cointegration_test ols_fit adfuller price_a price_b = inr c ->
  exists model adf,
    ols_fit price_a price_b = inr model
    /\ adfuller (resid model) = inr adf
    /\ p_value c = adf_pvalue adf.
Proof.
  unfold cointegration_test.
  destruct (ols_fit price_a price_b) as [e|model]; [discriminate|].
  destruct (nth_error (params model) 0); [|discriminate].
  destruct (nth_error (params model) 1); [|discriminate].
  destruct (adfuller (resid model)) as [e|adf] eqn:E; [discriminate|].
  intros H; inversion H; subst. exists model, adf. repeat split. exact E.
Qed.

(** [cointegration_test] has no check of its own on the regressor: it
    raises exactly when the fit raises, when the fit has fewer than two
    parameters ([params.iloc[1]]), or when the stationarity test raises. *)
Lemma cointegration_test_raises price_a price_b :
  (exists e, cointegration_test ols_fit adfuller price_a price_b = inl e)
  <-> (exists e, ols_fit price_a price_b = inl e)
      \/ (exists model, ols_fit price_a price_b = inr model
                        /\ (length (params model) < 2)%nat)
      \/ (exists model e, ols_fit price_a price_b = inr model
                          /\ adfuller (resid model) = inl e).
Proof.
  unfold cointegration_test.
  destruct (ols_fit price_a price_b) as [e|model].
  - split; [intros _; left; eauto|intros _; eauto].
  - destruct (params model) as [|a0 [|b0 rest]] eqn:Hp; simpl.
    + split; [intros _|intros _; eauto].
      right; left. exists model. rewrite Hp. simpl. split; [reflexivity|lia].
    + split; [intros _|intros _; eauto].
      right; left. exists model. rewrite Hp. simpl. split; [reflexivity|lia].
    + destruct (adfuller (resid model)) as [e|adf] eqn:Ha.
      * split; [intros _|intros _; eauto].
        right; right. exists model, e. split; [reflexivity|exact Ha].
      * split.
        -- intros [e He]. discriminate He.
        -- intros [[e He] | [(m & Hm & Hlen) | (m & e & Hm & He)]].
           ++ discriminate He.
           ++ inversion Hm; subst. rewrite Hp in Hlen. simpl in Hlen. lia.
           ++ inversion Hm; subst. congruence.
Qed.

(** The length check, and what an appended entry went through. *)
Lemma scan_pair_skipped_short stock_prices threshold min_periods name_a name_b :
  scan_pair pearson ols_fit adfuller stock_prices threshold min_periods
            name_a name_b = SkippedShort
  <-> too_short min_periods (lookup name_a stock_prices)
                (lookup name_b stock_prices) = true.
Proof.
  unfold scan_pair. destruct (too_short _ _ _); [intuition|].
  destruct (PrimFloat.ltb _ _).
  - split; discriminate.
  - destruct (cointegration_test _ _ _ _); split; discriminate.
Qed.

Lemma scan_pair_appended stock_prices threshold min_periods name_a name_b r :
  scan_pair pearson ols_fit adfuller stock_prices threshold min_periods
            name_a name_b = Appended r ->
  stock_a r = name_a /\ stock_b r = name_b
  /\ too_short min_periods (lookup name_a stock_prices)
                (lookup name_b stock_prices) = false
  /\ cointegration_test ols_fit adfuller (lookup name_a stock_prices)
                         (lookup name_b stock_prices) = inr (coint r).
Proof.
  unfold scan_pair. destruct (too_short _ _ _); [discriminate|].
  destruct (PrimFloat.ltb _ _); [discriminate|].
  destruct (cointegration_test _ _ _ _) as [e|c]; [discriminate|].
  intros H; inversion H; subst. simpl. repeat split.
Qed.

Lemma scan_all_in stock_prices threshold min_periods r :
  In r (scan_all pearson ols_fit adfuller stock_prices threshold min_periods) ->
  exists name_a name_b,
    scan_pair pearson ols_fit adfuller stock_prices threshold min_periods
              name_a name_b = Appended r.
Proof.
  unfold scan_all. rewrite in_flat_map. intros [[a b] [_ H]]. simpl in H.
  exists a, b. destruct (scan_pair _ _ _ _ _ _ _ _); simpl in H; try contradiction.
  destruct H as [-> | []]. reflexivity.
Qed.

Lemma results_appended stock_prices threshold min_periods r :
  In r (find_cointegrated_pairs pearson ols_fit adfuller
          stock_prices threshold min_periods) ->
  scan_pair pearson ols_fit adfuller stock_prices threshold min_periods
            (stock_a r) (stock_b r) = Appended r.
Proof.
  unfold find_cointegrated_pairs. rewrite sort_in. intros H.
  destruct (scan_all_in _ _ _ _ H) as (a & b & Hab).
  destruct (scan_pair_appended _ _ _ _ _ _ Hab) as (<- & <- & _). exact Hab.
Qed.

Lemma too_short_iff min_periods (price_a price_b : PriceSeries) :
  too_short min_periods price_a price_b = true
  <-> Z.of_nat (length price_a) < min_periods
      \/ Z.of_nat (length price_b) < min_periods.
Proof.
  unfold too_short. rewrite orb_true_iff, !Z.ltb_lt. reflexivity.
Qed.

(** C4 (amended): the length check skips a pair exactly when one of the two
    series as stored in the map - not aligned with the other - has fewer than
    [min_periods] points, so every result comes from two stored series of at
    least [min_periods] points each.  A pair of long series with a shorter
    common timestamp set passes the check; it yields no result provided the
    regression routine refuses series whose indices differ. *)
Theorem length_check_reads_stored_series stock_prices threshold min_periods :
  (forall name_a name_b,
      scan_pair pearson ols_fit adfuller stock_prices threshold min_periods
                name_a name_b = SkippedShort
      <-> Z.of_nat (length (lookup name_a stock_prices)) < min_periods
          \/ Z.of_nat (length (lookup name_b stock_prices)) < min_periods)
  /\ (forall r,
        In r (find_cointegrated_pairs pearson ols_fit adfuller
                stock_prices threshold min_periods) ->
        min_periods <= Z.of_nat (length (lookup (stock_a r) stock_prices))
        /\ min_periods <= Z.of_nat (length (lookup (stock_b r) stock_prices)))
  /\ ((forall a b, index a <> index b -> exists e, ols_fit a b = inl e) ->
      forall r,
        In r (find_cointegrated_pairs pearson ols_fit adfuller
                stock_prices threshold min_periods) ->
        min_periods <= aligned_length (lookup (stock_a r) stock_prices)
                                      (lookup (stock_b r) stock_prices)).
Proof.
  assert (Hraw : forall r,
             In r (find_cointegrated_pairs pearson ols_fit adfuller
                     stock_prices threshold min_periods) ->
             min_periods <= Z.of_nat (length (lookup (stock_a r) stock_prices))
             /\ min_periods <= Z.of_nat (length (lookup (stock_b r) stock_prices))).
  { intros r Hr. apply results_appended in Hr.
    destruct (scan_pair_appended _ _ _ _ _ _ Hr) as (_ & _ & Hshort & _).
    unfold too_short in Hshort. apply orb_false_iff in Hshort.
    rewrite !Z.ltb_ge in Hshort. exact Hshort. }
  split; [|split].
  - intros name_a name_b. rewrite scan_pair_skipped_short. apply too_short_iff.
  - exact Hraw.
  - intros Hols r Hr. destruct (Hraw r Hr) as [Ha _].
    apply results_appended in Hr.
    destruct (scan_pair_appended _ _ _ _ _ _ Hr) as (_ & _ & _ & Htest).
    destruct (cointegration_test_ok _ _ _ Htest) as (model & _ & Hfit & _).
    destruct (list_eq_dec Z.eq_dec (index (lookup (stock_a r) stock_prices))
                (index (lookup (stock_b r) stock_prices))) as [Heq|Hne].
    + unfold aligned_length. rewrite <- Heq, intersection_self, index_length.
      exact Ha.
    + destruct (Hols _ _ Hne) as [e He]. congruence.
Qed.

(** C8: the returned list is in ascending order of p-value - of any two
    entries the earlier one has a p-value less than or equal to the later
    one - whenever the p-values the stationarity test reports are numbers. *)
Theorem results_sorted_by_p_value stock_prices threshold min_periods :
  (forall xs adf, adfuller xs = inr adf -> not_nan (adf_pvalue adf)) ->
  let results :=
    find_cointegrated_pairs pearson ols_fit adfuller
      stock_prices threshold min_periods in
  StronglySorted p_value_le results
  /\ (forall i j x y, (i < j)%nat ->
        nth_error results i = Some x -> nth_error results j = Some y ->
        PrimFloat.leb (p_value (coint x)) (p_value (coint y)) = true).
Proof.
  intros Hadf results.
  assert (Hs : StronglySorted p_value_le results).
  { apply sort_sorted. rewrite Forall_forall. intros r Hr.
    destruct (scan_all_in _ _ _ _ Hr) as (a & b & Hab).
    destruct (scan_pair_appended _ _ _ _ _ _ Hab) as (_ & _ & _ & Htest).
    destruct (cointegration_test_ok _ _ _ Htest) as (model & adf & _ & Hadf' & Hp).
    unfold has_p_value. rewrite Hp. exact (Hadf _ _ Hadf'). }
  split; [exact Hs|].
  exact (strongly_sorted_nth_error p_value_le results Hs).
Qed.

End WithLibraries.

(** C4, as stated, fails: ["A"] and ["D"] of the example map have six points
    each but only four common timestamps; with [min_periods = 5] the length
    check lets the pair through, and the scan goes on to the correlation and
    to the regression, which is what rejects the pair. *)
Lemma short_overlap_passes_length_check :
  let price_a := lookup "A" example_prices in
  let price_d := lookup "D" example_prices in
  aligned_length price_a price_d = 4
  /\ too_short 5 price_a price_d = false
  /\ scan_pair pearson_stand_in ols_stand_in adfuller_stand_in
       example_prices (-1) 5 "A" "D"
     = TestFailed (Raised "ValueError").
Proof. vm_compute. repeat split. Qed.

Lemma ols_stand_in_checks_index a b :
  index a <> index b -> exists e, ols_stand_in a b = inl e.
Proof.
  intros Hne. unfold ols_stand_in.
  destruct (index_eqb (index a) (index b)) eqn:E.
  - apply index_eqb_eq in E. contradiction.
  - eauto.
Qed.

Lemma adfuller_stand_in_number xs adf :
  adfuller_stand_in xs = inr adf -> not_nan (adf_pvalue adf).
Proof.
  unfold adfuller_stand_in. intros H; inversion H; subst; clear H. simpl.
  unfold not_nan.
  destruct (PrimFloat.is_nan (PrimFloat.div _ _)) eqn:E; [reflexivity|exact E].
Qed.

(** The length-check theorem on the example map: every entry returned comes
    from series with at least five points, stored and aligned. *)
Lemma length_check_reads_stored_series_witness :
  let results :=
    find_cointegrated_pairs pearson_stand_in ols_stand_in adfuller_stand_in
      example_prices (-1) 5 in
  length results = 3%nat
  /\ forall r, In r results ->
       5 <= Z.of_nat (length (lookup (stock_a r) example_prices))
       /\ 5 <= aligned_length (lookup (stock_a r) example_prices)
                              (lookup (stock_b r) example_prices).
Proof.
  split; [vm_compute; reflexivity|].
  intros r Hr.
  destruct (length_check_reads_stored_series pearson_stand_in ols_stand_in
              adfuller_stand_in example_prices (-1)%float 5)
    as (_ & Hraw & Haligned).
  split.
  - exact (proj1 (Hraw r Hr)).
  - exact (Haligned ols_stand_in_checks_index r Hr).
Defined.

(** The ordering theorem on the example map. *)
Lemma results_sorted_by_p_value_witness :
  let results :=
    find_cointegrated_pairs pearson_stand_in ols_stand_in adfuller_stand_in
      example_prices (-1) 5 in
  map (fun r => (stock_a r, stock_b r)) results
  = [("A", "C"); ("A", "B"); ("B", "C")]%string
  /\ StronglySorted p_value_le results.
Proof.
  split; [vm_compute; reflexivity|].
  exact (proj1 (results_sorted_by_p_value pearson_stand_in ols_stand_in
                  adfuller_stand_in example_prices (-1)%float 5
                  adfuller_stand_in_number)).
Defined.

End ScannerFacts.

(** ** Floats: NaN and negation *)

Module FloatNaN.

Lemma SFcompare_refl f : f <> S754_nan -> SFcompare f f = Some Eq.
Proof.
  destruct f as [s|s| |s m e]; intros H; simpl; try reflexivity;
    try (destruct s; reflexivity); try congruence.
  destruct s; rewrite Z.compare_refl, Pos.compare_cont_refl; reflexivity.
Qed.

(** NaN is the one float that does not compare equal to itself. *)
Lemma is_nan_spec x : PrimFloat.is_nan x = true -> Prim2SF x = S754_nan.
Proof.
  unfold PrimFloat.is_nan. rewrite FloatAxioms.eqb_spec. intros H.
  destruct (Prim2SF x) as [s|s| |s m e] eqn:E; try reflexivity;
    unfold SFeqb in H; rewrite SFcompare_refl in H by discriminate;
    discriminate H.
Qed.

Lemma is_nan_eq x : PrimFloat.is_nan x = true -> x = PrimFloat.nan.
Proof. intros H. apply Prim2SF_inj. rewrite (is_nan_spec x H). reflexivity. Qed.

(** Every comparison with NaN is false. *)
Lemma ltb_nan_l y : PrimFloat.ltb PrimFloat.nan y = false.
Proof. rewrite FloatAxioms.ltb_spec. reflexivity. Qed.

Lemma ltb_nan_r x : PrimFloat.ltb x PrimFloat.nan = false.
Proof.
  rewrite FloatAxioms.ltb_spec. change (Prim2SF PrimFloat.nan) with S754_nan.
  destruct (Prim2SF x); reflexivity.
Qed.

(** NaN propagates through the arithmetic the backtest does. *)
Lemma mul_nan_l y : PrimFloat.mul PrimFloat.nan y = PrimFloat.nan.
Proof. apply Prim2SF_inj. rewrite mul_spec. reflexivity. Qed.

Lemma sub_nan_r x : PrimFloat.sub x PrimFloat.nan = PrimFloat.nan.
Proof.
  apply Prim2SF_inj. rewrite sub_spec. change (Prim2SF PrimFloat.nan) with S754_nan.
  destruct (Prim2SF x); reflexivity.
Qed.

Lemma div_nan_r x : PrimFloat.div x PrimFloat.nan = PrimFloat.nan.
Proof.
  apply Prim2SF_inj. rewrite div_spec. change (Prim2SF PrimFloat.nan) with S754_nan.
  destruct (Prim2SF x); reflexivity.
Qed.

Lemma SFcompare_opp f1 f2 :
  SFcompare (SFopp f1) (SFopp f2) = SFcompare f2 f1.
Proof.
  destruct f1 as [s1|s1| |s1 m1 e1], f2 as [s2|s2| |s2 m2 e2]; simpl;
    try reflexivity;
    try (destruct s1; reflexivity); try (destruct s2; reflexivity);
    try (destruct s1, s2; reflexivity).
  destruct s1, s2; simpl; try reflexivity; f_equal; order_cases.
Qed.

Lemma SFltb_leb_trans f1 f2 f3 :
  SFltb f1 f2 = true -> SFleb f2 f3 = true -> SFltb f1 f3 = true.
Proof.
  unfold SFleb, SFltb.
  destruct f1 as [s1|s1| |s1 m1 e1], f2 as [s2|s2| |s2 m2 e2],
           f3 as [s3|s3| |s3 m3 e3]; simpl;
    try discriminate; try reflexivity;
    try (destruct s1; simpl; try discriminate; try reflexivity);
    try (destruct s2; simpl; try discriminate; try reflexivity);
    try (destruct s3; simpl; try discriminate; try reflexivity);
    intros H12 H23; order_cases.
Qed.

Lemma SFleb_ltb_trans f1 f2 f3 :
  SFleb f1 f2 = true -> SFltb f2 f3 = true -> SFltb f1 f3 = true.
Proof.
  unfold SFleb, SFltb.
  destruct f1 as [s1|s1| |s1 m1 e1], f2 as [s2|s2| |s2 m2 e2],
           f3 as [s3|s3| |s3 m3 e3]; simpl;
    try discriminate; try reflexivity;
    try (destruct s1; simpl; try discriminate; try reflexivity);
    try (destruct s2; simpl; try discriminate; try reflexivity);
    try (destruct s3; simpl; try discriminate; try reflexivity);
    intros H12 H23; order_cases.
Qed.

Lemma ltb_leb_trans x y z :
  PrimFloat.ltb x y = true -> PrimFloat.leb y z = true ->
  PrimFloat.ltb x z = true.
Proof.
  rewrite !FloatAxioms.ltb_spec, FloatAxioms.leb_spec. apply SFltb_leb_trans.
Qed.

Lemma leb_ltb_trans x y z :
  PrimFloat.leb x y = true -> PrimFloat.ltb y z = true ->
  PrimFloat.ltb x z = true.
Proof.
  rewrite !FloatAxioms.ltb_spec, FloatAxioms.leb_spec. apply SFleb_ltb_trans.
Qed.

(** Negation reverses the order. *)
Lemma leb_opp x y :
  PrimFloat.leb x y = true ->
  PrimFloat.leb (PrimFloat.opp y) (PrimFloat.opp x) = true.
Proof.
  rewrite !FloatAxioms.leb_spec, !opp_spec. unfold SFleb.
  rewrite SFcompare_opp. trivial.
Qed.

(** [y <= x] excludes [x < y]. *)
Lemma leb_not_ltb x y :
  PrimFloat.leb y x = true -> PrimFloat.ltb x y = false.
Proof.
  rewrite FloatAxioms.ltb_spec, FloatAxioms.leb_spec. unfold SFltb, SFleb.
  rewrite (FloatOrder.SFcompare_antisym (Prim2SF y) (Prim2SF x)).
  destruct (SFcompare (Prim2SF y) (Prim2SF x)) as [[| |]|]; simpl; congruence.
Qed.

Lemma ltb_opp_opp x y :
  PrimFloat.ltb (PrimFloat.opp x) (PrimFloat.opp y) = PrimFloat.ltb y x.
Proof.
  rewrite !FloatAxioms.ltb_spec, !opp_spec. unfold SFltb.
  rewrite SFcompare_opp. reflexivity.
Qed.

Lemma opp_involutive x : PrimFloat.opp (PrimFloat.opp x) = x.
Proof.
  apply Prim2SF_inj. rewrite !opp_spec.
  destruct (Prim2SF x); simpl; rewrite ?Bool.negb_involutive; reflexivity.
Qed.

Lemma ltb_opp_r x y :
  PrimFloat.ltb x (PrimFloat.opp y) = PrimFloat.ltb y (PrimFloat.opp x).
Proof.
  rewrite <- (opp_involutive x) at 1. apply ltb_opp_opp.
Qed.

Lemma ltb_opp_l x y :
  PrimFloat.ltb (PrimFloat.opp x) y = PrimFloat.ltb (PrimFloat.opp y) x.
Proof.
  rewrite <- (opp_involutive y) at 1. apply ltb_opp_opp.
Qed.

End FloatNaN.

Module SignalLaws.
Import Signals SignalFacts FloatNaN.

Lemma step_nan entry exit stop p z :
  PrimFloat.is_nan z = true -> step entry exit stop p z = p.
Proof.
  intros H. apply is_nan_eq in H. subst z. unfold step, gtb.
  rewrite !ltb_nan_l, !ltb_nan_r. simpl.
  destruct (p =? 0), (p =? 1), (p =? -1); reflexivity.
Qed.

(** X1: a NaN z-score never changes the position. *)
Theorem nan_z_score_keeps_position entry exit stop zs t :
  (1 <= t < length zs)%nat ->
  PrimFloat.is_nan (nth t zs PrimFloat.nan) = true ->
  nth t (signal_column entry exit stop zs) 0
  = nth (t - 1) (signal_column entry exit stop zs) 0.
Proof.
  intros Ht Hnan. rewrite (signal_column_step entry exit stop zs t Ht).
  apply step_nan. exact Hnan.
Qed.

Lemma nan_z_score_keeps_position_witness :
  let zs := [0; 1.5; PrimFloat.nan; PrimFloat.nan; 0.5]%float in
  (1 <= 2 < length zs)%nat
  /\ signal_column 1.2 (-0.8) 3 zs = [0; -1; -1; -1; 0]
  /\ nth 2 (signal_column 1.2 (-0.8) 3 zs) 0
     = nth (2 - 1) (signal_column 1.2 (-0.8) 3 zs) 0.
Proof.
  split; [simpl; lia|]. split; [vm_compute; reflexivity|].
  apply (nan_z_score_keeps_position 1.2 (-0.8) 3
           [0; 1.5; PrimFloat.nan; PrimFloat.nan; 0.5]%float 2).
  - simpl; lia.
  - vm_compute; reflexivity.
Defined.

Lemma step_flat_iff entry exit stop z :
  step entry exit stop 0 z = 0
  <-> gtb z entry = false /\ PrimFloat.ltb z (PrimFloat.opp entry) = false.
Proof.
  unfold step. cbn [Z.eqb].
  destruct (gtb z entry); [split; [discriminate|intros [H _]; discriminate]|].
  destruct (PrimFloat.ltb z (PrimFloat.opp entry));
    [split; [discriminate|intros [_ H]; discriminate]|].
  split; [intros _; split; reflexivity|reflexivity].
Qed.

Lemma signal_loop_flat_iff entry exit stop zs :
  signal_loop entry exit stop 0 zs = repeat 0 (length zs)
  <-> Forall (fun z => gtb z entry = false
                       /\ PrimFloat.ltb z (PrimFloat.opp entry) = false) zs.
Proof.
  induction zs as [|z zs IH]; cbn [signal_loop length repeat].
  - split; [constructor|reflexivity].
  - split.
    + intros H. injection H as H1 H2. rewrite H1 in H2.
      constructor; [apply (step_flat_iff entry exit stop); exact H1|].
      apply IH. exact H2.
    + intros H. inversion H as [|? ? Hz Hzs]; subst.
      apply (step_flat_iff entry exit stop) in Hz. rewrite Hz. f_equal.
      apply IH. exact Hzs.
Qed.

(** X2: the position column is flat throughout exactly when no z-score after
    the first row meets an entry condition; the first row's z-score is
    never looked at. *)
Theorem flat_iff_no_entry entry exit stop zs :
  signal_column entry exit stop zs = repeat 0 (length zs)
  <-> Forall (fun z => gtb z entry = false
                       /\ PrimFloat.ltb z (PrimFloat.opp entry) = false)
             (tl zs).
Proof.
  destruct zs as [|z0 rest]; simpl.
  - split; [constructor|reflexivity].
  - rewrite <- signal_loop_flat_iff. split.
    + intros H; inversion H; reflexivity.
    + intros H; f_equal; exact H.
Qed.

Lemma step_stop_redundant entry exit stop p z :
  PrimFloat.leb exit stop = true ->
  step entry exit stop p z = step entry exit exit p z.
Proof.
  intros Hle. unfold step.
  destruct (p =? 0); [reflexivity|].
  destruct (p =? 1).
  - destruct (gtb z exit) eqn:E1; [reflexivity|]. simpl.
    destruct (gtb z stop) eqn:E2; [|reflexivity].
    unfold gtb in *. rewrite (leb_ltb_trans _ _ _ Hle E2) in E1. discriminate.
  - destruct (p =? -1); [|reflexivity].
    destruct (PrimFloat.ltb z (PrimFloat.opp exit)) eqn:E1; [reflexivity|]. simpl.
    destruct (PrimFloat.ltb z (PrimFloat.opp stop)) eqn:E2; [|reflexivity].
    rewrite (ltb_leb_trans _ _ _ E2 (leb_opp _ _ Hle)) in E1. discriminate.
Qed.

Lemma signal_loop_stop_redundant entry exit stop zs :
  PrimFloat.leb exit stop = true ->
  forall p, signal_loop entry exit stop p zs = signal_loop entry exit exit p zs.
Proof.
  intros Hle. induction zs as [|z zs IH]; intros p; simpl; [reflexivity|].
  rewrite (step_stop_redundant _ _ _ _ _ Hle), IH. reflexivity.
Qed.

(** X3: a stop loss at or above the exit threshold never fires on its own:
    the position column does not depend on it. *)
Theorem stop_loss_above_exit_is_idle entry exit stop stop' zs :
  PrimFloat.leb exit stop = true -> PrimFloat.leb exit stop' = true ->
  signal_column entry exit stop zs = signal_column entry exit stop' zs.
Proof.
  intros H H'. destruct zs as [|z0 rest]; [reflexivity|]. simpl.
  rewrite (signal_loop_stop_redundant _ _ _ _ H),
          (signal_loop_stop_redundant _ _ _ _ H'). reflexivity.
Qed.

Lemma stop_loss_above_exit_is_idle_witness :
  let zs := [0; -1.5; -3.5; -0.5; 4; 0.5]%float in
  PrimFloat.leb (-0.8) 3 = true /\ PrimFloat.leb (-0.8) 100 = true
  /\ signal_column 1.2 (-0.8) 3 zs = signal_column 1.2 (-0.8) 100 zs.
Proof.
  split; [reflexivity|]. split; [reflexivity|].
  apply (stop_loss_above_exit_is_idle 1.2 (-0.8) 3 100); reflexivity.
Defined.

Lemma entry_sides_exclusive entry z :
  PrimFloat.leb 0 entry = true ->
  PrimFloat.ltb entry z = true ->
  PrimFloat.ltb z (PrimFloat.opp entry) = false.
Proof.
  intros H0 H1. destruct (PrimFloat.ltb z (PrimFloat.opp entry)) eqn:H2;
    [|reflexivity].
  assert (Ha : PrimFloat.ltb 0 z = true) by exact (leb_ltb_trans _ _ _ H0 H1).
  assert (Hb : PrimFloat.ltb 0 (PrimFloat.opp entry) = true).
  { rewrite FloatAxioms.ltb_spec in *. revert Ha H2. generalize (Prim2SF z).
    intros f Ha H2. unfold SFltb in *.
    destruct (SFcompare (Prim2SF 0) f) as [[| |]|] eqn:E1; try discriminate.
    destruct (SFcompare f (Prim2SF (PrimFloat.opp entry))) as [[| |]|] eqn:E2;
      try discriminate.
    assert (Hle : SFleb f (Prim2SF (PrimFloat.opp entry)) = true)
      by (unfold SFleb; rewrite E2; reflexivity).
    assert (Hlt : SFltb (Prim2SF 0) f = true)
      by (unfold SFltb; rewrite E1; reflexivity).
    exact (SFltb_leb_trans _ _ _ Hlt Hle). }
  assert (Hc := ltb_leb_trans _ _ _ Hb (leb_opp _ _ H0)).
  vm_compute in Hc. discriminate Hc.
Qed.

Lemma step_mirror entry exit stop p z :
  PrimFloat.leb 0 entry = true ->
  step entry exit stop (- p) (PrimFloat.opp z) = - step entry exit stop p z.
Proof.
  intros H0. unfold step, gtb.
  rewrite !ltb_opp_opp, !(ltb_opp_r _ z).
  destruct (Z.eqb_spec p 0) as [->|Hp0];
    [|destruct (Z.eqb_spec p 1) as [->|Hp1];
      [|destruct (Z.eqb_spec p (-1)) as [->|Hp2]]]; cbn [Z.opp Z.eqb].
  - destruct (PrimFloat.ltb entry z) eqn:E1.
    + rewrite (entry_sides_exclusive entry z H0 E1). reflexivity.
    + destruct (PrimFloat.ltb z (PrimFloat.opp entry)); reflexivity.
  - cbn [Pos.eqb].
    destruct (PrimFloat.ltb exit z || PrimFloat.ltb stop z); reflexivity.
  - cbn [Pos.eqb].
    destruct (PrimFloat.ltb z (PrimFloat.opp exit)
              || PrimFloat.ltb z (PrimFloat.opp stop)); reflexivity.
  - destruct (Z.eqb_spec (- p) 0); [lia|].
    destruct (Z.eqb_spec (- p) 1); [lia|].
    destruct (Z.eqb_spec (- p) (-1)); [lia|]. reflexivity.
Qed.

Lemma signal_loop_mirror entry exit stop zs : forall p,
  PrimFloat.leb 0 entry = true ->
  signal_loop entry exit stop (- p) (map PrimFloat.opp zs)
  = map Z.opp (signal_loop entry exit stop p zs).
Proof.
  induction zs as [|z zs IH]; intros p H0; [reflexivity|].
  cbn [map signal_loop]. rewrite step_mirror by exact H0.
  rewrite IH by exact H0. reflexivity.
Qed.

(** X4: with a non-negative entry threshold the machine is symmetric:
    negating every z-score negates every position. *)
Theorem mirrored_z_scores_mirror_positions entry exit stop zs :
  PrimFloat.leb 0 entry = true ->
  signal_column entry exit stop (map PrimFloat.opp zs)
  = map Z.opp (signal_column entry exit stop zs).
Proof.
  intros H0. destruct zs as [|z zs]; [reflexivity|].
  cbn [map signal_column].
  rewrite <- (signal_loop_mirror entry exit stop zs 0 H0). reflexivity.
Qed.

Lemma mirrored_z_scores_mirror_positions_witness :
  signal_column 1.2 (-0.8) 3 (map PrimFloat.opp [0; 1.5; 1; -1; -2; 0]%float)
  = [0; 1; 1; 0; -1; 0]
  /\ signal_column 1.2 (-0.8) 3 [0; 1.5; 1; -1; -2; 0]%float
     = [0; -1; -1; 0; 1; 0].
Proof.
  split; [|vm_compute; reflexivity].
  rewrite (mirrored_z_scores_mirror_positions 1.2 (-0.8) 3
             [0; 1.5; 1; -1; -2; 0]%float); vm_compute; reflexivity.
Defined.

End SignalLaws.

(** ** The transition table *)

Module SignalTable.
Import Signals SignalFacts FloatNaN SignalLaws.

Lemma step_ordered_transition entry exit stop p z :
  is_state p ->
  ordered_transition entry exit stop z p (step entry exit stop p z).
Proof.
  intros Hp; split_states; unfold step; simpl.
  - destruct (PrimFloat.ltb z (PrimFloat.opp exit)) eqn:E1; simpl.
    + apply first_short_to_flat; now left.
    + destruct (PrimFloat.ltb z (PrimFloat.opp stop)) eqn:E2.
      * apply first_short_to_flat; now right.
      * now apply else_short_stays.
  - destruct (gtb z entry) eqn:E1.
    + now apply first_flat_to_short.
    + destruct (PrimFloat.ltb z (PrimFloat.opp entry)) eqn:E2.
      * now apply then_flat_to_long.
      * now apply else_flat_stays.
  - destruct (gtb z exit) eqn:E1; simpl.
    + apply first_long_to_flat; now left.
    + destruct (gtb z stop) eqn:E2.
      * apply first_long_to_flat; now right.
      * now apply else_long_stays.
Qed.

(** Read in order, the table leaves no choice. *)
Lemma ordered_transition_functional entry exit stop z p n1 n2 :
  ordered_transition entry exit stop z p n1 ->
  ordered_transition entry exit stop z p n2 ->
  n1 = n2.
Proof.
  intros H1 H2; inversion H1; subst; inversion H2; subst;
    try reflexivity; try congruence;
    repeat match goal with H : _ \/ _ |- _ => destruct H end; congruence.
Qed.

(** A move of the ordered table is a move of the table as written. *)
Lemma ordered_transition_allowed entry exit stop z p n :
  ordered_transition entry exit stop z p n -> transition entry exit stop z p n.
Proof.
  intros H; inversion H; subst;
    [ apply flat_to_short | apply flat_to_long | apply flat_stays
    | apply long_to_flat | apply long_stays
    | apply short_to_flat | apply short_stays ]; assumption.
Qed.

(** The table as written leaves no choice where its two entry rows do not
    both apply, which is everywhere once [entry] is not negative. *)
Lemma transition_functional entry exit stop z p n1 n2 :
  PrimFloat.leb 0 entry = true
  \/ gtb z entry = false
  \/ PrimFloat.ltb z (PrimFloat.opp entry) = false ->
  transition entry exit stop z p n1 -> transition entry exit stop z p n2 ->
  n1 = n2.
Proof.
  intros Hone H1 H2.
  assert (Hex : gtb z entry = true ->
                PrimFloat.ltb z (PrimFloat.opp entry) = true -> False).
  { intros Hs Hl. destruct Hone as [H0 | [Hf | Hf]]; [|congruence|congruence].
    unfold gtb in Hs. rewrite (entry_sides_exclusive entry z H0 Hs) in Hl.
    discriminate Hl. }
  inversion H1; subst; inversion H2; subst;
    try reflexivity; try congruence;
    try (exfalso; apply Hex; assumption);
    repeat match goal with H : _ \/ _ |- _ => destruct H end; congruence.
Qed.

(** C1, as stated, fails: with [entry = -1] and a z-score of 0 the row
    "flat, [z < -entry], long-spread" applies ([0 < 1]), and so does the row
    "flat, [z > entry], short-spread" ([0 > -1]); the machine goes short, not
    long. *)
Lemma negative_entry_goes_short :
  let zs := [0; 0; 0; 0; 0]%float in
  let position := signal_column (-1) (-0.8) 3 zs in
  PrimFloat.ltb (nth 1 zs PrimFloat.nan) (PrimFloat.opp (-1)) = true
  /\ transition (-1) (-0.8) 3 (nth 1 zs PrimFloat.nan) (nth 0 position 0) 1
  /\ position = [0; -1; 0; -1; 0]
  /\ nth 1 position 0 <> 1.
Proof.
  cbv zeta. split; [vm_compute; reflexivity|].
  split; [apply flat_to_long; vm_compute; reflexivity|].
  split; [vm_compute; reflexivity | vm_compute; discriminate].
Qed.

(** C1 (amended): started from position 0 at index 0 and carried forward,
    the position at every later index [t] is the one the transition table,
    its rows read in order, gives for the position at [t - 1] and the
    z-score at [t], and read so the table allows no other: from flat to
    short-spread when [z > entry], to long-spread when [z < -entry] and not
    [z > entry], otherwise flat; from long-spread to flat when [z > exit] or
    [z > stop_loss], otherwise long; from short-spread to flat when
    [z < -exit] or [z < -stop_loss], otherwise short; this for every
    z-score sequence and all thresholds.  The move made is always one the
    table as written allows, and it is the only one it allows when
    [entry >= 0], or when at this z-score the two entry conditions do not
    both hold. *)
Theorem signal_machine_follows_table entry exit stop zs t :
  (1 <= t < length zs)%nat ->
  let position := signal_column entry exit stop zs in
  let z := nth t zs PrimFloat.nan in
  let current := nth (t - 1) position 0 in
  let next := nth t position 0 in
  length position = length zs
  /\ nth 0 position 0 = 0
  /\ ordered_transition entry exit stop z current next
  /\ (forall n, ordered_transition entry exit stop z current n -> n = next)
  /\ transition entry exit stop z current next
  /\ (PrimFloat.leb 0 entry = true
      \/ gtb z entry = false
      \/ PrimFloat.ltb z (PrimFloat.opp entry) = false ->
      forall n, transition entry exit stop z current n -> n = next).
Proof.
  intros Ht position z current next.
  assert (Htr : ordered_transition entry exit stop z current next).
  { unfold next, current, z, position.
    rewrite (signal_column_step entry exit stop zs t Ht).
    apply step_ordered_transition, signal_column_nth_state. }
  split; [apply signal_column_length|].
  split; [unfold position; destruct zs; reflexivity|].
  split; [exact Htr|].
  split; [intros n Hn; exact (ordered_transition_functional _ _ _ _ _ _ _ Hn Htr)|].
  split; [exact (ordered_transition_allowed _ _ _ _ _ _ Htr)|].
  intros Hone n Hn.
  exact (transition_functional _ _ _ _ _ _ _ Hone Hn
           (ordered_transition_allowed _ _ _ _ _ _ Htr)).
Qed.

(** The theorem at the scenario's input, index 2 (entry into short-spread);
    the entry threshold 1.2 is not negative, so the table as written
    decides the move. *)
Lemma signal_machine_follows_table_witness :
  let zs := [0; 0.5; 1.3; 0.9; -0.5]%float in
  let position := signal_column 1.2 (-0.8) 3 zs in
  (1 <= 2 < length zs)%nat
  /\ PrimFloat.leb 0 1.2 = true
  /\ nth 2 position 0 = -1
  /\ ordered_transition 1.2 (-0.8) 3 (nth 2 zs PrimFloat.nan)
       (nth (2 - 1) position 0) (nth 2 position 0)
  /\ (forall n,
        transition 1.2 (-0.8) 3 (nth 2 zs PrimFloat.nan)
          (nth (2 - 1) position 0) n ->
        n = nth 2 position 0).
Proof.
  cbv zeta.
  assert (Ht : (1 <= 2 < length [0; 0.5; 1.3; 0.9; -0.5]%float)%nat)
    by (simpl; lia).
  destruct (signal_machine_follows_table 1.2 (-0.8) 3
              [0; 0.5; 1.3; 0.9; -0.5]%float 2 Ht)
    as (_ & _ & Hord & _ & _ & Huniq).
  split; [exact Ht|]. split; [reflexivity|].
  split; [vm_compute; reflexivity|]. split; [exact Hord|].
  apply Huniq. left. reflexivity.
Defined.

End SignalTable.

Module FrameFacts.
Import Signals SignalFacts.

Lemma generate_price_columns prices beta alpha resid_std entry exit stop :
  let rows :=
    generate_trading_signals prices beta alpha resid_std entry exit stop in
  map price_a rows = map fst prices /\ map price_b rows = map snd prices.
Proof.
  unfold generate_trading_signals.
  set (spread_col := map _ prices).
  set (z_col := map _ spread_col).
  set (signal_col := signal_column entry exit stop z_col).
  assert (Hs : length spread_col = length prices) by apply length_map.
  assert (Hz : length z_col = length prices)
    by (unfold z_col; rewrite length_map; exact Hs).
  assert (Hg : length signal_col = length prices)
    by (unfold signal_col; rewrite signal_column_length; exact Hz).
  assert (Hl : length (combine prices spread_col)
               = length (combine z_col signal_col))
    by (rewrite !length_combine; lia).
  cbv zeta. rewrite !map_map. cbn [price_a price_b].
  rewrite <- (map_map (fun r => fst (fst r)) fst),
          <- (map_map (fun r => fst (fst r)) snd),
          <- (map_map fst fst).
  rewrite (map_fst_combine _ _ Hl), map_fst_combine by lia.
  split; reflexivity.
Qed.

(** X5: the frame has one row per input row, carries the input prices, and
    every signal in it is -1, 0 or 1, the first being 0. *)
Theorem generated_frame_is_well_formed prices beta alpha resid_std
    entry exit stop :
  let rows :=
    generate_trading_signals prices beta alpha resid_std entry exit stop in
  length rows = length prices
  /\ map price_a rows = map fst prices
  /\ map price_b rows = map snd prices
  /\ Forall (fun r => signal r = -1 \/ signal r = 0 \/ signal r = 1) rows
  /\ hd 0 (map signal rows) = 0.
Proof.
  intros rows.
  destruct (generate_trading_signals_columns prices beta alpha resid_std
              entry exit stop) as [Hlen Hsig].
  destruct (generate_price_columns prices beta alpha resid_std
              entry exit stop) as [Ha Hb].
  fold rows in Hlen, Hsig, Ha, Hb.
  repeat split; try assumption.
  - pose proof (signal_column_states entry exit stop (map z_score rows)) as H.
    rewrite <- Hsig in H. rewrite Forall_map in H. exact H.
  - rewrite Hsig. destruct (map z_score rows); reflexivity.
Qed.

End FrameFacts.

Module BacktestEdges.
Import Series SeriesFacts Backtest BacktestFacts FloatNaN.

(** The first net return is NaN: the first row has no previous price and no
    previous signal. *)
Lemma net_of_head signals tc :
  signals <> [] -> exists rest, net_of signals tc = PrimFloat.nan :: rest.
Proof.
  intros Hne. destruct signals as [|r rows]; [congruence|].
  pose proof (net_of_length (r :: rows) tc) as Hlen.
  destruct (net_of (r :: rows) tc) as [|x rest] eqn:E; [discriminate Hlen|].
  exists rest. f_equal.
  change x with (nth 0 (x :: rest) PrimFloat.nan). rewrite <- E.
  unfold net_of, net_returns_column.
  rewrite (map2_nth _ _ _ 0%nat PrimFloat.nan PrimFloat.nan).
  - unfold costs.
    rewrite (nth_map_lt _ _ 0%nat PrimFloat.nan)
      by (rewrite position_changes_length; simpl; lia).
    change (nth 0 (position_changes (map Signals.signal (r :: rows))) PrimFloat.nan)
      with PrimFloat.nan.
    rewrite mul_nan_l. apply sub_nan_r.
  - unfold spread_returns.
    rewrite !map2_length, lagged_position_length, !pct_change_length, !length_map.
    simpl; lia.
  - unfold costs. rewrite length_map, position_changes_length. simpl; lia.
Qed.

Section WithPower.

Variable power : float -> float -> float.

Lemma backtest_returns_fields signals tc res :
  backtest_pairs_strategy power signals tc = inr res ->
  net_returns res = net_of signals tc
  /\ cumulative_returns res
     = map (fun x => PrimFloat.sub x PrimFloat.one)
           (cumprod (map (fun x => PrimFloat.add PrimFloat.one x)
                         (net_of signals tc)))
  /\ total_return res = last (cumulative_returns res) PrimFloat.nan
  /\ volatility res
     = PrimFloat.mul (std (net_of signals tc)) (PrimFloat.sqrt (float_of_int 252))
  /\ sharpe_ratio res
     = (if gtb (volatility res) PrimFloat.zero
        then PrimFloat.div (annual_return res) (volatility res)
        else PrimFloat.zero).
Proof.
  unfold backtest_pairs_strategy. fold (net_of signals tc).
  destruct (iloc_last _) as [e|total] eqn:E; intros H; inversion H; subst; clear H.
  cbn [net_returns cumulative_returns total_return volatility sharpe_ratio
       annual_return].
  repeat split.
  destruct (map _ (cumprod _)) as [|c cs]; simpl in E; inversion E. reflexivity.
Qed.

(** X6: both return columns have one entry per row, and their first entries
    are NaN. *)
Theorem return_columns_start_with_nan signals tc res :
  backtest_pairs_strategy power signals tc = inr res ->
  length (net_returns res) = length signals
  /\ length (cumulative_returns res) = length signals
  /\ hd PrimFloat.zero (net_returns res) = PrimFloat.nan
  /\ hd PrimFloat.zero (cumulative_returns res) = PrimFloat.nan.
Proof.
  intros Hres.
  destruct (backtest_returns_fields signals tc res Hres) as (Hn & Hc & _).
  assert (Hne : signals <> []) by (apply (backtest_returns_iff power signals tc); eauto).
  destruct (net_of_head signals tc Hne) as [rest Hhead].
  rewrite Hn, Hc. repeat split.
  - apply net_of_length.
  - rewrite length_map, cumprod_length, length_map. apply net_of_length.
  - rewrite Hhead. reflexivity.
  - rewrite Hhead. reflexivity.
Qed.

(** X7: on a frame of one or two rows the volatility is NaN (fewer than two
    net returns are numbers) and the Sharpe ratio is 0; on a frame of one
    row the total return is NaN as well. *)
Theorem short_frame_has_no_volatility signals tc res :
  (length signals <= 2)%nat ->
  backtest_pairs_strategy power signals tc = inr res ->
  volatility res = PrimFloat.nan
  /\ sharpe_ratio res = PrimFloat.zero
  /\ (length signals = 1%nat -> total_return res = PrimFloat.nan).
Proof.
  intros Hlen Hres.
  destruct (backtest_returns_fields signals tc res Hres)
    as (_ & Hc & Ht & Hv & Hs).
  assert (Hne : signals <> []) by (apply (backtest_returns_iff power signals tc); eauto).
  destruct (net_of_head signals tc Hne) as [rest Hhead].
  pose proof (net_of_length signals tc) as Hnl. rewrite Hhead in Hnl.
  simpl in Hnl.
  assert (Hvol : volatility res = PrimFloat.nan).
  { rewrite Hv, Hhead. unfold std.
    change (dropna (PrimFloat.nan :: rest)) with (dropna rest).
    pose proof (filter_length_le (fun x => negb (PrimFloat.is_nan x)) rest) as Hf.
    fold (dropna rest) in Hf.
    replace (Z.of_nat (length (dropna rest)) <=? 1) with true
      by (symmetry; apply Z.leb_le; lia).
    apply mul_nan_l. }
  split; [exact Hvol|]. split.
  - rewrite Hs, Hvol. reflexivity.
  - intros H1. rewrite Ht, Hc, Hhead.
    destruct rest as [|x rest]; [reflexivity|simpl in Hnl; lia].
Qed.

Lemma fsum_zeros xs :
  Forall (fun x => x = PrimFloat.zero) xs -> fsum xs = PrimFloat.zero.
Proof.
  unfold fsum. induction 1 as [|x xs Hx _ IH]; [reflexivity|].
  subst x. exact IH.
Qed.

Lemma constant_signal_changes signal_col s :
  (forall x, In x signal_col -> x = s) ->
  Forall (fun d => d = PrimFloat.zero) (dropna (position_changes signal_col)).
Proof.
  intros Hs. apply Forall_forall. intros d Hd. unfold dropna in Hd.
  apply filter_In in Hd. destruct Hd as [Hin Hnan].
  unfold position_changes in Hin.
  destruct signal_col as [|s0 rest]; [destruct Hin|].
  cbn [diff_int map] in Hin. destruct Hin as [<- | Hin]; [discriminate Hnan|].
  apply in_map_iff in Hin. destruct Hin as (x & <- & Hx).
  unfold map2 in Hx. apply in_map_iff in Hx. destruct Hx as ([a b] & <- & Hab).
  pose proof (in_combine_l _ _ _ _ Hab) as Ha.
  pose proof (in_combine_r _ _ _ _ Hab) as Hb.
  cbn [fst snd].
  rewrite (Hs a) by (right; exact Ha). rewrite (Hs b) by exact Hb.
  rewrite Z.sub_diag. reflexivity.
Qed.

(** X8: a frame whose signal never changes has a trade count of 0. *)
Theorem constant_signal_has_no_trades signals tc res s :
  (forall r, In r signals -> Signals.signal r = s) ->
  backtest_pairs_strategy power signals tc = inr res ->
  num_trades res = PrimFloat.zero.
Proof.
  intros Hs Hres.
  destruct (backtest_fields power signals tc res Hres) as (_ & Hn & _).
  assert (Hc : forall x, In x (map Signals.signal signals) -> x = s).
  { intros x Hx. apply in_map_iff in Hx. destruct Hx as (r & <- & Hr). auto. }
  rewrite Hn. unfold Series.sum.
  rewrite (fsum_zeros _ (constant_signal_changes _ s Hc)). reflexivity.
Qed.

End WithPower.

Lemma return_columns_start_with_nan_witness :
  exists res,
    backtest_pairs_strategy power_one round_trip_year 0.001 = inr res
    /\ length (net_returns res) = 252%nat
    /\ hd PrimFloat.zero (cumulative_returns res) = PrimFloat.nan.
Proof.
  destruct (backtest_pairs_strategy power_one round_trip_year 0.001)
    as [e|res] eqn:E; [vm_compute in E; discriminate|].
  exists res. split; [reflexivity|].
  destruct (return_columns_start_with_nan power_one round_trip_year
              0.001%float res E) as (H1 & _ & _ & H4).
  split; [rewrite H1; reflexivity|exact H4].
Defined.

(** A frame of two rows. *)
Lemma short_frame_has_no_volatility_witness :
  exists res,
    backtest_pairs_strategy power_one
      [frame_row 100 50 0; frame_row 101 50 1] 0.001 = inr res
    /\ volatility res = PrimFloat.nan
    /\ sharpe_ratio res = PrimFloat.zero.
Proof.
  destruct (backtest_pairs_strategy power_one
              [frame_row 100 50 0; frame_row 101 50 1] 0.001)
    as [e|res] eqn:E; [vm_compute in E; discriminate|].
  exists res. split; [reflexivity|].
  destruct (short_frame_has_no_volatility power_one
              [frame_row 100 50 0; frame_row 101 50 1] 0.001%float res
              ltac:(simpl; lia) E) as (H1 & H2 & _).
  split; assumption.
Defined.

Lemma constant_signal_has_no_trades_witness :
  exists res,
    backtest_pairs_strategy power_one flat_year 0.001 = inr res
    /\ num_trades res = PrimFloat.zero.
Proof.
  destruct (backtest_pairs_strategy power_one flat_year 0.001)
    as [e|res] eqn:E; [vm_compute in E; discriminate|].
  exists res. split; [reflexivity|].
  apply (constant_signal_has_no_trades power_one flat_year 0.001%float res 0);
    [|exact E].
  intros r Hr. unfold flat_year in Hr. apply repeat_spec in Hr. subst r.
  reflexivity.
Defined.

End BacktestEdges.

Module ScannerLaws.
Import Scanner ScannerFacts FloatOrder FloatNaN.

(** *** The sort keeps every entry *)

Lemma insert_perm x l : Permutation (insert_by_p_value x l) (x :: l).
Proof.
  induction l as [|y l IH]; simpl; [reflexivity|].
  destruct (PrimFloat.ltb _ _); [reflexivity|].
  rewrite IH. apply perm_swap.
Qed.

Lemma sort_fold_perm l : forall acc,
  Permutation (fold_left (fun acc x => insert_by_p_value x acc) l acc) (l ++ acc).
Proof.
  induction l as [|x l IH]; intros acc; simpl; [reflexivity|].
  rewrite IH, insert_perm. symmetry. apply Permutation_middle.
Qed.

Lemma sort_perm l : Permutation (sort_by_p_value l) l.
Proof.
  unfold sort_by_p_value. rewrite sort_fold_perm, app_nil_r. reflexivity.
Qed.

(** *** The double loop *)

Lemma pairs_in {A : Type} (l : list A) a b :
  In (a, b) (pairs l) ->
  exists i j, (i < j)%nat /\ nth_error l i = Some a /\ nth_error l j = Some b.
Proof.
  induction l as [|x l IH]; simpl; [intros []|].
  rewrite in_app_iff, in_map_iff. intros [(y & Hy & Hin) | H].
  - inversion Hy; subst. apply In_nth_error in Hin. destruct Hin as [j Hj].
    exists 0%nat, (S j). repeat split; [lia|exact Hj].
  - destruct (IH H) as (i & j & Hij & Hi & Hj).
    exists (S i), (S j). repeat split; [lia|exact Hi|exact Hj].
Qed.

Lemma pairs_length {A : Type} (l : list A) :
  (2 * length (pairs l) = length l * (length l - 1))%nat.
Proof.
  induction l as [|x l IH]; [reflexivity|].
  cbn [pairs length]. rewrite length_app, length_map.
  replace (S (length l) - 1)%nat with (length l) by lia.
  destruct (length l) as [|n]; [simpl in *; lia|].
  replace (S n - 1)%nat with n in IH by lia. nia.
Qed.

Lemma pairs_NoDup {A : Type} (l : list A) : NoDup l -> NoDup (pairs l).
Proof.
  induction 1 as [|x l Hx Hl IH]; simpl; [constructor|].
  apply NoDup_app.
  - apply Finite.Injective_map_NoDup; [|exact Hl].
    intros u v Huv. inversion Huv. reflexivity.
  - exact IH.
  - intros [a b] Hin Hin'. apply in_map_iff in Hin.
    destruct Hin as (y & Hy & _). inversion Hy; subst.
    destruct (pairs_in _ _ _ Hin') as (i & _ & _ & Hi & _).
    apply Hx. eapply nth_error_In. exact Hi.
Qed.


Lemma flat_map_length_le {A B : Type} (g : A -> list B) l :
  (forall x, (length (g x) <= 1)%nat) ->
  (length (flat_map g l) <= length l)%nat.
Proof.
  intros Hg. induction l as [|x l IH]; simpl; [lia|].
  rewrite length_app. specialize (Hg x). lia.
Qed.

Lemma flat_map_keys_NoDup {A B : Type} (g : A -> list B) (f : B -> A) l :
  (forall x, (length (g x) <= 1)%nat) ->
  (forall x r, In r (g x) -> f r = x) ->
  NoDup l -> NoDup (map f (flat_map g l)).
Proof.
  intros Hlen Hkey. induction 1 as [|x l Hx Hl IH]; simpl; [constructor|].
  rewrite map_app. apply NoDup_app.
  - specialize (Hlen x). destruct (g x) as [|r [|r' rest]]; simpl in *;
      [constructor | repeat constructor; intros [] | lia].
  - exact IH.
  - intros a Ha Ha'. apply in_map_iff in Ha. destruct Ha as (r & <- & Hr).
    rewrite (Hkey _ _ Hr) in Ha'. apply in_map_iff in Ha'.
    destruct Ha' as (r' & Hr' & Hin). apply in_flat_map in Hin.
    destruct Hin as (y & Hy & Hin). rewrite (Hkey _ _ Hin) in Hr'.
    subst y. contradiction.
Qed.

(** *** Ties in the sort *)

Lemma SFltb_eqb_apart f1 f3 k :
  SFltb f1 f3 = true -> SFeqb f1 k = true -> SFeqb f3 k = false.
Proof.
  unfold SFeqb, SFltb.
  destruct f1 as [s1|s1| |s1 m1 e1], f3 as [s3|s3| |s3 m3 e3],
           k as [s2|s2| |s2 m2 e2]; simpl;
    try discriminate; try reflexivity;
    try (destruct s1; simpl; try discriminate; try reflexivity);
    try (destruct s3; simpl; try discriminate; try reflexivity);
    try (destruct s2; simpl; try discriminate; try reflexivity);
    intros H12 H23; order_cases.
Qed.

Lemma ltb_eqb_apart x z k :
  PrimFloat.ltb x z = true -> PrimFloat.eqb x k = true ->
  PrimFloat.eqb z k = false.
Proof.
  rewrite FloatAxioms.ltb_spec, !FloatAxioms.eqb_spec. apply SFltb_eqb_apart.
Qed.

Lemma insert_filter_key k x l :
  StronglySorted p_value_le l ->
  filter (p_value_eqb k) (insert_by_p_value x l)
  = filter (p_value_eqb k) l ++ (if p_value_eqb k x then [x] else []).
Proof.
  induction 1 as [|y l Hl IH Hy]; simpl.
  - destruct (p_value_eqb k x); reflexivity.
  - destruct (PrimFloat.ltb _ _) eqn:Hlt.
    + cbn [filter]. destruct (p_value_eqb k x) eqn:Hx.
      * assert (Hnone : forall z, In z (y :: l) -> p_value_eqb k z = false).
        { intros z Hz. unfold p_value_eqb in *.
          apply (ltb_eqb_apart (p_value (coint x))); [|exact Hx].
          destruct Hz as [<-|Hz]; [exact Hlt|].
          rewrite Forall_forall in Hy.
          exact (ltb_leb_trans _ _ _ Hlt (Hy z Hz)). }
        assert (Hnil : filter (p_value_eqb k) (y :: l) = []).
        { clear -Hnone. induction (y :: l) as [|z t IHt]; [reflexivity|].
          simpl. rewrite (Hnone z (or_introl eq_refl)).
          apply IHt. intros w Hw. apply Hnone. right. exact Hw. }
        cbn [filter] in Hnil. rewrite Hnil. reflexivity.
      * rewrite app_nil_r. reflexivity.
    + cbn [filter]. rewrite IH. destruct (p_value_eqb k y); reflexivity.
Qed.

Lemma sort_fold_filter_key k l : forall acc,
  Forall has_p_value l -> Forall has_p_value acc ->
  StronglySorted p_value_le acc ->
  filter (p_value_eqb k) (fold_left (fun acc x => insert_by_p_value x acc) l acc)
  = filter (p_value_eqb k) acc ++ filter (p_value_eqb k) l.
Proof.
  induction l as [|x l IH]; intros acc Hl Hacc Hs; simpl.
  - rewrite app_nil_r. reflexivity.
  - inversion Hl; subst. rewrite IH; auto.
    + rewrite insert_filter_key by exact Hs. rewrite <- app_assoc.
      destruct (p_value_eqb k x); reflexivity.
    + rewrite Forall_forall in *. intros r Hr. apply insert_in in Hr.
      destruct Hr as [->|Hr]; auto.
    + apply insert_sorted; auto.
Qed.

(** *** Return series *)

Lemma pct_change_head x xs :
  exists rest, Series.pct_change (x :: xs) = PrimFloat.nan :: rest.
Proof.
  unfold Series.pct_change, Series.shift1, Series.map2. cbn [combine map].
  eexists. rewrite div_nan_r. reflexivity.
Qed.

Lemma returns_length (s : PriceSeries) :
  (length (returns s) <= length s - 1)%nat.
Proof.
  unfold returns. destruct s as [|[t x] s]; [simpl; lia|].
  unfold values, index. cbn [map snd fst].
  destruct (pct_change_head x (map snd s)) as [rest Hrest].
  assert (Hlen := SeriesFacts.pct_change_length (x :: map snd s)).
  rewrite Hrest in *. cbn [combine filter snd].
  change (negb (PrimFloat.is_nan PrimFloat.nan)) with false. cbv iota.
  etransitivity; [apply filter_length_le|].
  rewrite length_combine. cbn [length] in *. rewrite !length_map in *. lia.
Qed.

Lemma find_label (s : PriceSeries) t :
  In t (index s) -> exists p, find (fun p => fst p =? t) s = Some p /\ fst p = t /\ In p s.
Proof.
  induction s as [|q s IH]; simpl; [intros []|].
  destruct (fst q =? t) eqn:E.
  - intros _. exists q. apply Z.eqb_eq in E. auto.
  - intros [H|H]; [apply Z.eqb_neq in E; contradiction|].
    destruct (IH H) as (p & Hp & Hf & Hin). exists p. auto.
Qed.

Lemma loc_length (s : PriceSeries) idx :
  (forall t, In t idx -> In t (index s)) -> length (loc s idx) = length idx.
Proof.
  induction idx as [|t idx IH]; intros H; [reflexivity|].
  unfold loc in *. cbn [flat_map]. rewrite length_app, IH.
  - destruct (find_label s t (H t (or_introl eq_refl))) as (p & -> & _).
    reflexivity.
  - intros u Hu. apply H. right. exact Hu.
Qed.

Lemma intersection_in ia ib t :
  In t (intersection ia ib) <-> In t ia /\ In t ib.
Proof.
  unfold intersection. rewrite filter_In, existsb_exists. split.
  - intros [Ha (u & Hu & E)]. apply Z.eqb_eq in E. subst. auto.
  - intros [Ha Hb]. split; [exact Ha|]. exists t. split; [exact Hb|apply Z.eqb_refl].
Qed.

Lemma intersection_length ia ib :
  (length (intersection ia ib) <= length ia)%nat.
Proof. apply filter_length_le. Qed.

Section WithLibraries.

Variable pearson : list float -> list float -> float.
Variable ols_fit : PriceSeries -> PriceSeries -> PyException + OLSResults.
Variable adfuller : list float -> PyException + ADFResult.

Lemma scan_all_iff stock_prices threshold min_periods r :
  In r (scan_all pearson ols_fit adfuller stock_prices threshold min_periods)
  <-> exists a b, In (a, b) (pairs (map fst stock_prices))
                  /\ scan_pair pearson ols_fit adfuller stock_prices
                                 threshold min_periods a b = Appended r.
Proof.
  unfold scan_all. rewrite in_flat_map. split.
  - intros ([a b] & Hab & Hr). exists a, b. split; [exact Hab|].
    cbn [fst snd] in Hr.
    destruct (scan_pair _ _ _ _ _ _ a b); try contradiction.
    destruct Hr as [->|[]]. reflexivity.
  - intros (a & b & Hab & Hr). exists (a, b). split; [exact Hab|].
    cbn [fst snd]. rewrite Hr. left. reflexivity.
Qed.

(** X9: the returned list holds exactly the entries appended by the double
    loop, each as often as it was appended: the sort drops and repeats
    nothing; an entry is appended exactly for the pairs ([i < j] in key
    order) whose iteration reaches [results.append]. *)
Theorem results_are_the_appended_pairs stock_prices threshold min_periods :
  let results := find_cointegrated_pairs pearson ols_fit adfuller
        stock_prices threshold min_periods in
  let names := map fst stock_prices in
  Permutation results (scan_all pearson ols_fit adfuller
        stock_prices threshold min_periods)
  /\ (forall r, In r results <->
        exists a b, In (a, b) (pairs names)
          /\ scan_pair pearson ols_fit adfuller
                stock_prices threshold min_periods a b = Appended r)
  /\ (forall r, In r results ->
        exists i j, (i < j)%nat
          /\ nth_error names i = Some (stock_a r)
          /\ nth_error names j = Some (stock_b r))
  /\ (2 * length results <= length names * (length names - 1))%nat.
Proof.
  intros results names.
  assert (Hperm : Permutation results (scan_all pearson ols_fit adfuller
        stock_prices threshold min_periods))
    by apply sort_perm.
  assert (Hin : forall r, In r results <->
        exists a b, In (a, b) (pairs names)
          /\ scan_pair pearson ols_fit adfuller
                stock_prices threshold min_periods a b = Appended r).
  { intros r. etransitivity; [apply sort_in | apply scan_all_iff]. }
  repeat split; try exact Hperm; try apply Hin.
  - intros r Hr. apply Hin in Hr. destruct Hr as (a & b & Hab & Hr).
    apply scan_pair_appended in Hr. destruct Hr as (-> & -> & _).
    apply pairs_in. exact Hab.
  - rewrite (Permutation_length Hperm). rewrite <- pairs_length.
    apply Nat.mul_le_mono_l. apply flat_map_length_le.
    intros ab. destruct (scan_pair _ _ _ _ _ _ _ _); simpl; lia.
Qed.

(** X10: with distinct keys, no pair is reported twice and no instrument is
    paired with itself. *)
Theorem no_pair_reported_twice stock_prices threshold min_periods :
  NoDup (map fst stock_prices) ->
  let results := find_cointegrated_pairs pearson ols_fit adfuller
        stock_prices threshold min_periods in
  NoDup (map (fun r => (stock_a r, stock_b r)) results)
  /\ (forall r, In r results -> stock_a r <> stock_b r).
Proof.
  intros Hnd results. split.
  - assert (Hperm : Permutation results
                      (scan_all pearson ols_fit adfuller
                            stock_prices threshold min_periods))
      by apply sort_perm.
    apply (Permutation_NoDup
             (Permutation_sym (Permutation_map
                (fun r => (stock_a r, stock_b r)) Hperm))).
    apply flat_map_keys_NoDup.
    + intros ab. destruct (scan_pair _ _ _ _ _ _ _ _); simpl; lia.
    + intros [a b] r. cbn [fst snd].
      intros Hr. destruct (scan_pair _ _ _ _ _ _ a b) eqn:E;
        try contradiction.
      destruct Hr as [<-|[]]. apply scan_pair_appended in E.
      destruct E as (-> & -> & _). reflexivity.
    + apply pairs_NoDup. exact Hnd.
  - intros r Hr. apply (proj1 (sort_in _ _)) in Hr.
    apply (proj1 (scan_all_iff _ _ _ _)) in Hr.
    destruct Hr as (a & b & Hab & Hr).
    apply scan_pair_appended in Hr. destruct Hr as (-> & -> & _).
    apply pairs_in in Hab. destruct Hab as (i & j & Hij & Hi & Hj).
    intros E. assert (Heq : i = j); [|lia].
    apply (proj1 (NoDup_nth_error _) Hnd).
    + apply nth_error_Some. rewrite Hi. discriminate.
    + rewrite Hi, Hj, E. reflexivity.
Qed.

(** X11: the correlation check skips a pair exactly when the correlation
    compares below the threshold; a correlation that is NaN is never below
    it, so such a pair goes on to the cointegration test, and every reported
    entry carries the correlation the check saw. *)
Theorem correlation_check_lets_nan_through
    stock_prices threshold min_periods name_a name_b :
  let price_a := lookup name_a stock_prices in
  let price_b := lookup name_b stock_prices in
  let corr := calculate_correlation pearson price_a price_b in
  (scan_pair pearson ols_fit adfuller
        stock_prices threshold min_periods name_a name_b
     = SkippedCorrelation
   <-> too_short min_periods price_a price_b = false
       /\ PrimFloat.ltb corr threshold = true)
  /\ (PrimFloat.is_nan corr = true ->
      scan_pair pearson ols_fit adfuller
            stock_prices threshold min_periods name_a name_b
        <> SkippedCorrelation)
  /\ (forall r,
        scan_pair pearson ols_fit adfuller
              stock_prices threshold min_periods name_a name_b
          = Appended r ->
        correlation r = corr /\ PrimFloat.ltb corr threshold = false).
Proof.
  intros price_a price_b corr.
  unfold scan_pair.
  fold price_a price_b. fold corr.
  split; [split|split].
  - destruct (too_short _ _ _); [discriminate|].
    destruct (PrimFloat.ltb corr threshold); [auto|].
    destruct (cointegration_test _ _ _ _); discriminate.
  - intros [-> ->]. reflexivity.
  - intros Hnan. rewrite (is_nan_eq _ Hnan), ltb_nan_l.
    destruct (too_short _ _ _); [discriminate|].
    destruct (cointegration_test _ _ _ _); discriminate.
  - intros r. destruct (too_short _ _ _); [discriminate|].
    destruct (PrimFloat.ltb corr threshold); [discriminate|].
    destruct (cointegration_test _ _ _ _); [discriminate|].
    intros H. inversion H. auto.
Qed.

(** X12: the correlation is taken over paired samples: the two return
    vectors handed to [corr] have the same length, one entry per timestamp
    at which both returns exist, which is fewer than the points of either
    series. *)
Theorem correlation_samples_are_paired price_a price_b :
  let xs := fst (Pipeline.correlation_samples price_a price_b) in
  let ys := snd (Pipeline.correlation_samples price_a price_b) in
  calculate_correlation pearson price_a price_b = pearson xs ys
  /\ length xs = length ys
  /\ length xs
     = length (intersection (index (returns price_a)) (index (returns price_b)))
  /\ (length xs <= length price_a - 1)%nat.
Proof.
  intros xs ys. unfold xs, ys, Pipeline.correlation_samples. cbn [fst snd].
  set (common := intersection _ _).
  assert (Ha : length (loc (returns price_a) common) = length common).
  { apply loc_length. intros t Ht. apply intersection_in in Ht. tauto. }
  assert (Hb : length (loc (returns price_b) common) = length common).
  { apply loc_length. intros t Ht. apply intersection_in in Ht. tauto. }
  repeat split.
  - congruence.
  - exact Ha.
  - rewrite Ha. unfold common.
    etransitivity; [apply intersection_length|].
    rewrite index_length. apply returns_length.
Qed.


(** X13: entries with the same p-value keep the order in which the double
    loop appended them (the sort is stable), whenever the p-values the
    stationarity test reports are numbers. *)
Theorem ties_keep_scan_order stock_prices threshold min_periods :
  (forall xs adf, adfuller xs = inr adf -> not_nan (adf_pvalue adf)) ->
  forall k,
    filter (p_value_eqb k) (find_cointegrated_pairs pearson ols_fit adfuller
          stock_prices threshold min_periods)
    = filter (p_value_eqb k) (scan_all pearson ols_fit adfuller
          stock_prices threshold min_periods).
Proof.
  intros Hadf k.
  unfold find_cointegrated_pairs, sort_by_p_value.
  rewrite sort_fold_filter_key; [reflexivity| |constructor|constructor].
  rewrite Forall_forall. intros r Hr.
  destruct (scan_all_in _ _ _ _ _ _ _ Hr) as (a & b & Hab).
  destruct (scan_pair_appended _ _ _ _ _ _ _ _ _ Hab) as (_ & _ & _ & Htest).
  destruct (cointegration_test_ok _ _ _ _ _ Htest)
    as (model & adf & _ & Hadf' & Hp).
  unfold has_p_value. rewrite Hp. exact (Hadf _ _ Hadf').
Qed.

(** X14: raising the correlation threshold or the minimum number of
    periods never adds a pair: every entry reported under the stricter
    setting is reported, unchanged, under the looser one. *)
Theorem stricter_filters_report_fewer_pairs
    stock_prices threshold threshold' min_periods min_periods' :
  PrimFloat.leb threshold threshold' = true ->
  min_periods <= min_periods' ->
  forall r,
    In r (find_cointegrated_pairs pearson ols_fit adfuller
          stock_prices threshold' min_periods') ->
    In r (find_cointegrated_pairs pearson ols_fit adfuller
          stock_prices threshold min_periods).
Proof.
  intros Ht Hm r Hr.
  apply (proj1 (sort_in _ _)) in Hr. apply (proj1 (scan_all_iff _ _ _ _)) in Hr.
  apply (proj2 (sort_in _ _)). apply (proj2 (scan_all_iff _ _ _ _)).
  destruct Hr as (a & b & Hab & Hr). exists a, b. split; [exact Hab|].
  revert Hr. unfold scan_pair.
  destruct (too_short min_periods' _ _) eqn:Hs'; [discriminate|].
  assert (Hs : too_short min_periods (lookup a stock_prices)
                 (lookup b stock_prices) = false).
  { unfold too_short in *. apply Bool.orb_false_iff in Hs'.
    destruct Hs' as [H1 H2]. apply Z.ltb_ge in H1, H2.
    apply Bool.orb_false_iff. split; apply Z.ltb_ge; lia. }
  rewrite Hs.
  destruct (PrimFloat.ltb _ threshold') eqn:Hc'; [discriminate|].
  destruct (PrimFloat.ltb _ threshold) eqn:Hc; [|trivial].
  rewrite (ltb_leb_trans _ _ _ Hc Ht) in Hc'. discriminate.
Qed.

(** X15: how [cointegration_test] fails: an exception of the regression or
    of the stationarity test is passed on unchanged, a fit with fewer than two
    parameters raises [IndexError] before the stationarity test is run, and
    nothing else fails; a result flagged as cointegrated has a p-value that
    is a number below 0.05. *)
Theorem cointegration_test_failures price_a price_b :
  (forall e, ols_fit price_a price_b = inl e ->
     cointegration_test ols_fit adfuller price_a price_b = inl e)
  /\ (forall model, ols_fit price_a price_b = inr model ->
        (length (params model) < 2)%nat ->
        cointegration_test ols_fit adfuller price_a price_b = inl IndexError)
  /\ (forall model e, ols_fit price_a price_b = inr model ->
        (2 <= length (params model))%nat ->
        adfuller (resid model) = inl e ->
        cointegration_test ols_fit adfuller price_a price_b = inl e)
  /\ (forall model adf, ols_fit price_a price_b = inr model ->
        (2 <= length (params model))%nat ->
        adfuller (resid model) = inr adf ->
        exists c, cointegration_test ols_fit adfuller price_a price_b = inr c
          /\ alpha c = nth 0 (params model) PrimFloat.nan
          /\ beta c = nth 1 (params model) PrimFloat.nan
          /\ p_value c = adf_pvalue adf)
  /\ (forall c, cointegration_test ols_fit adfuller price_a price_b = inr c ->
        cointegrated c = true ->
        not_nan (p_value c) /\ PrimFloat.ltb (p_value c) 0.05 = true).
Proof.
  unfold cointegration_test. split; [|split; [|split; [|split]]].
  - intros e ->. reflexivity.
  - intros model -> Hlen.
    destruct (params model) as [|a [|b rest]]; simpl in *; [reflexivity|reflexivity|lia].
  - intros model e -> Hlen Hadf.
    destruct (params model) as [|a [|b rest]]; simpl in *; [lia|lia|].
    rewrite Hadf. reflexivity.
  - intros model adf -> Hlen Hadf.
    destruct (params model) as [|a [|b rest]]; simpl in *; [lia|lia|].
    rewrite Hadf. eexists. split; [reflexivity|]. simpl. auto.
  - intros c Hc Hflag.
    destruct (ols_fit price_a price_b) as [e|model]; [discriminate|].
    destruct (nth_error (params model) 0); [|discriminate].
    destruct (nth_error (params model) 1); [|discriminate].
    destruct (adfuller (resid model)) as [e|adf]; [discriminate|].
    inversion Hc; subst; clear Hc. cbn [cointegrated p_value] in *.
    split; [|exact Hflag].
    unfold not_nan. destruct (PrimFloat.is_nan (adf_pvalue adf)) eqn:E;
      [|reflexivity].
    rewrite (is_nan_eq _ E), ltb_nan_l in Hflag. discriminate.
Qed.

End WithLibraries.

Lemma no_pair_reported_twice_witness :
  let results :=
    find_cointegrated_pairs pearson_stand_in ols_stand_in
      adfuller_stand_in example_prices (-1) 5 in
  NoDup (map fst example_prices)
  /\ NoDup (map (fun r => (stock_a r, stock_b r)) results)
  /\ length results = 3%nat.
Proof.
  assert (Hnd : NoDup (map fst example_prices)).
  { repeat constructor; simpl; intuition discriminate. }
  split; [exact Hnd|]. split; [|vm_compute; reflexivity].
  exact (proj1 (no_pair_reported_twice pearson_stand_in ols_stand_in
                  adfuller_stand_in example_prices (-1)%float 5 Hnd)).
Defined.

Lemma ties_keep_scan_order_witness :
  let results :=
    find_cointegrated_pairs pearson_stand_in ols_stand_in
      adfuller_stand_in tied_prices (-1) 5 in
  map (fun r => (stock_a r, stock_b r)) results
  = [("A", "C"); ("B", "D"); ("A", "B"); ("A", "D"); ("C", "D");
     ("B", "C")]%string
  /\ forall k,
       filter (p_value_eqb k) results
       = filter (p_value_eqb k)
           (scan_all pearson_stand_in ols_stand_in adfuller_stand_in
              tied_prices (-1) 5).
Proof.
  split; [vm_compute; reflexivity|].
  exact (ties_keep_scan_order pearson_stand_in ols_stand_in
           adfuller_stand_in tied_prices (-1)%float 5
           adfuller_stand_in_number).
Defined.

Lemma stricter_filters_report_fewer_pairs_witness :
  let strict :=
    find_cointegrated_pairs pearson_stand_in ols_stand_in
      adfuller_stand_in example_prices 0.5 6 in
  let loose :=
    find_cointegrated_pairs pearson_stand_in ols_stand_in
      adfuller_stand_in example_prices (-1) 5 in
  length strict = 1%nat /\ length loose = 3%nat
  /\ forall r, In r strict -> In r loose.
Proof.
  split; [vm_compute; reflexivity|]. split; [vm_compute; reflexivity|].
  apply (stricter_filters_report_fewer_pairs pearson_stand_in ols_stand_in
           adfuller_stand_in example_prices (-1)%float 0.5%float 5 6).
  - vm_compute. reflexivity.
  - lia.
Defined.

Lemma correlation_check_lets_nan_through_witness :
  let corr :=
    calculate_correlation pearson_stand_in
      (lookup "A" still_prices) (lookup "B" still_prices) in
  PrimFloat.is_nan corr = true
  /\ scan_pair pearson_stand_in ols_stand_in adfuller_stand_in
       still_prices 0.8 5 "A" "B" <> SkippedCorrelation
  /\ map (fun r => PrimFloat.is_nan (correlation r))
         (find_cointegrated_pairs pearson_stand_in ols_stand_in
            adfuller_stand_in still_prices 0.8 5)
     = [true].
Proof.
  assert (Hnan : PrimFloat.is_nan
            (calculate_correlation pearson_stand_in
               (lookup "A" still_prices) (lookup "B" still_prices)) = true)
    by (vm_compute; reflexivity).
  split; [exact Hnan|]. split; [|vm_compute; reflexivity].
  exact (proj1 (proj2 (correlation_check_lets_nan_through pearson_stand_in
                         ols_stand_in adfuller_stand_in still_prices
                         0.8%float 5 "A" "B")) Hnan).
Defined.

Lemma cointegration_test_failures_witness :
  let price_a := lookup "A" example_prices in
  let price_d := lookup "D" example_prices in
  ols_stand_in price_a price_d = inl (Raised "ValueError")
  /\ cointegration_test ols_stand_in adfuller_stand_in price_a price_d
     = inl (Raised "ValueError").
Proof.
  split; [vm_compute; reflexivity|].
  apply (proj1 (cointegration_test_failures ols_stand_in adfuller_stand_in
                  (lookup "A" example_prices) (lookup "D" example_prices))).
  vm_compute. reflexivity.
Defined.

End ScannerLaws.

Module PipelineFacts.
Import Scanner Pipeline ScannerFacts ScannerLaws.

Lemma loc_series_index (s : PriceSeries) idx :
  (forall t, In t idx -> In t (index s)) -> index (loc_series s idx) = idx.
Proof.
  induction idx as [|t idx IH]; intros H; [reflexivity|].
  unfold loc_series, index in *. cbn [flat_map]. rewrite map_app, IH.
  - destruct (find_label s t (H t (or_introl eq_refl))) as (p & -> & Hp & _).
    simpl. rewrite Hp. reflexivity.
  - intros u Hu. apply H. right. exact Hu.
Qed.

Lemma loc_series_incl (s : PriceSeries) idx : incl (loc_series s idx) s.
Proof.
  intros p Hp. unfold loc_series in Hp. apply in_flat_map in Hp.
  destruct Hp as (t & _ & Hp).
  destruct (find _ s) as [q|] eqn:E; [|contradiction].
  destruct Hp as [<-|[]]. apply find_some in E. tauto.
Qed.

Lemma loc_series_cons (s : PriceSeries) t idx :
  loc_series s (t :: idx)
  = match find (fun p => fst p =? t) s with
    | Some p => [p]
    | None => []
    end ++ loc_series s idx.
Proof. reflexivity. Qed.

Lemma loc_series_skip (p : Z * float) (s : PriceSeries) idx :
  ~ In (fst p) idx -> loc_series (p :: s) idx = loc_series s idx.
Proof.
  induction idx as [|t idx IH]; intros H; [reflexivity|].
  rewrite !loc_series_cons, IH by (intros Hin; apply H; right; exact Hin).
  cbn [find]. destruct (fst p =? t) eqn:E; [|reflexivity].
  apply Z.eqb_eq in E. exfalso. apply H. left. symmetry. exact E.
Qed.

Lemma loc_series_self (s : PriceSeries) :
  NoDup (index s) -> loc_series s (index s) = s.
Proof.
  induction s as [|p s IH]; intros H; [reflexivity|].
  unfold index in *. cbn [map] in *. inversion H as [|? ? Hp Hs]; subst.
  rewrite loc_series_cons. cbn [find]. rewrite Z.eqb_refl.
  rewrite loc_series_skip by exact Hp. rewrite IH by exact Hs. reflexivity.
Qed.

Lemma intersection_NoDup ia ib : NoDup ia -> NoDup (intersection ia ib).
Proof. apply NoDup_filter. Qed.

Lemma align_index price_a price_b :
  index (fst (align price_a price_b))
    = intersection (index price_a) (index price_b)
  /\ index (snd (align price_a price_b))
    = intersection (index price_a) (index price_b).
Proof.
  unfold align. cbn [fst snd]. split; apply loc_series_index;
    intros t Ht; apply intersection_in in Ht; tauto.
Qed.

(** X16: the alignment at the head of [run_full_analysis] hands on two
    series over the same index, the common timestamps in the order of the
    first series; their rows are rows of the series loaded, and both have
    as many rows as there are common timestamps. *)
Theorem aligned_series_share_index price_a price_b :
  NoDup (index price_a) -> NoDup (index price_b) ->
  let aligned_a := fst (align price_a price_b) in
  let aligned_b := snd (align price_a price_b) in
  index aligned_a = intersection (index price_a) (index price_b)
  /\ index aligned_b = index aligned_a
  /\ incl aligned_a price_a
  /\ incl aligned_b price_b
  /\ length aligned_a = length aligned_b
  /\ Z.of_nat (length aligned_a) = aligned_length price_a price_b.
Proof.
  intros _ _ aligned_a aligned_b.
  destruct (align_index price_a price_b) as [Ha Hb].
  fold aligned_a in Ha. fold aligned_b in Hb.
  split; [exact Ha|]. split; [congruence|].
  split; [apply loc_series_incl|]. split; [apply loc_series_incl|].
  split.
  - rewrite <- (index_length aligned_a), <- (index_length aligned_b). congruence.
  - unfold aligned_length. rewrite <- Ha, index_length. reflexivity.
Qed.

(** X17: on series without repeated timestamps the alignment is idempotent,
    and two series that already share their index pass through unchanged. *)
Theorem align_idempotent price_a price_b :
  NoDup (index price_a) -> NoDup (index price_b) ->
  align (fst (align price_a price_b)) (snd (align price_a price_b))
    = align price_a price_b
  /\ (index price_a = index price_b -> align price_a price_b = (price_a, price_b)).
Proof.
  intros Hna Hnb.
  assert (Hsame : forall a b, NoDup (index a) -> index a = index b ->
                              align a b = (a, b)).
  { intros a b Ha Hab. unfold align. rewrite <- Hab, intersection_self.
    rewrite loc_series_self by exact Ha.
    rewrite Hab, loc_series_self by (rewrite <- Hab; exact Ha). reflexivity. }
  split.
  - destruct (align_index price_a price_b) as [Ha Hb].
    rewrite Hsame.
    + destruct (align price_a price_b); reflexivity.
    + rewrite Ha. apply intersection_NoDup. exact Hna.
    + congruence.
  - intros Hab. apply Hsame; assumption.
Qed.

Section WithLibraries.

Variable power : float -> float -> float.
Variable pearson : list float -> list float -> float.
Variable ols_fit : PriceSeries -> PriceSeries -> PyException + OLSResults.
Variable adfuller : list float -> PyException + ADFResult.

(** X18: what [run_full_analysis] returns, by the outcome of the
    cointegration test on the aligned series: an exception of the test is
    passed on; with a test result and no common timestamp the backtest
    raises [IndexError]; with a test result and a common timestamp a result
    dictionary is returned, its return columns having one row per common
    timestamp. *)
Theorem run_full_analysis_outcome price_a price_b entry_threshold exit_threshold :
  let aligned_a := fst (align price_a price_b) in
  let aligned_b := snd (align price_a price_b) in
  let common_idx := intersection (index price_a) (index price_b) in
  let test := cointegration_test ols_fit adfuller aligned_a aligned_b in
  let run :=
    run_full_analysis power pearson ols_fit adfuller price_a price_b
      entry_threshold exit_threshold in
  (forall e, test = inl e -> run = inl e)
  /\ (forall c, test = inr c -> common_idx = [] -> run = inl IndexError)
  /\ (forall c, test = inr c -> common_idx <> [] ->
        NoDup (index price_a) -> NoDup (index price_b) ->
        exists res, run = inr res
          /\ length (Backtest.net_returns res) = length common_idx
          /\ length (Backtest.cumulative_returns res) = length common_idx).
Proof.
  intros aligned_a aligned_b common_idx test run.
  unfold run, run_full_analysis. fold common_idx.
  change (loc_series price_a common_idx) with aligned_a.
  change (loc_series price_b common_idx) with aligned_b.
  fold test.
  destruct (align_index price_a price_b) as [Ha Hb].
  fold aligned_a aligned_b common_idx in Ha, Hb.
  assert (Hlen : length aligned_a = length aligned_b).
  { rewrite <- (index_length aligned_a), <- (index_length aligned_b).
    congruence. }
  assert (Hrows : forall beta alpha sd,
    length (Signals.generate_trading_signals
              (combine (values aligned_a) (values aligned_b))
              beta alpha sd entry_threshold exit_threshold 3.0)
    = length common_idx).
  { intros beta alpha sd.
    rewrite (proj1 (SignalFacts.generate_trading_signals_columns _ _ _ _ _ _ _)).
    rewrite length_combine. unfold values. rewrite !length_map.
    rewrite <- Hlen, Nat.min_id, <- (index_length aligned_a), Ha.
    reflexivity. }
  split; [|split].
  - intros e ->. reflexivity.
  - intros c -> Hnil.
    specialize (Hrows (beta c) (alpha c) (resid_std c)).
    rewrite Hnil in Hrows.
    destruct (Signals.generate_trading_signals _ _ _ _ _ _ _);
      [reflexivity|discriminate].
  - intros c -> Hne _ _.
    specialize (Hrows (beta c) (alpha c) (resid_std c)).
    set (signals := Signals.generate_trading_signals _ _ _ _ _ _ _) in *.
    assert (Hs : signals <> []).
    { intros E. rewrite E in Hrows. destruct common_idx; [congruence|discriminate]. }
    destruct (proj2 (BacktestFacts.backtest_returns_iff power signals 0.001) Hs)
      as [res Hres].
    exists res. split; [exact Hres|].
    destruct (BacktestEdges.backtest_returns_fields power _ _ _ Hres)
      as (Hnet & Hcum & _).
    rewrite Hcum, Hnet, length_map, SeriesFacts.cumprod_length, length_map.
    rewrite BacktestFacts.net_of_length. auto.
Qed.

End WithLibraries.

Lemma example_index_NoDup name :
  NoDup (index (lookup name example_prices)).
Proof.
  unfold example_prices. cbn [lookup].
  repeat (match goal with |- context [String.eqb ?a name] =>
            destruct (String.eqb a name) end);
    vm_compute; repeat constructor; simpl; intuition discriminate.
Qed.

Lemma aligned_series_share_index_witness :
  let price_a := lookup "A" example_prices in
  let price_d := lookup "D" example_prices in
  index (fst (align price_a price_d)) = [3; 4; 5; 6]
  /\ index (snd (align price_a price_d)) = index (fst (align price_a price_d)).
Proof.
  split; [vm_compute; reflexivity|].
  exact (proj1 (proj2 (aligned_series_share_index
                         (lookup "A" example_prices) (lookup "D" example_prices)
                         (example_index_NoDup "A") (example_index_NoDup "D")))).
Defined.

Lemma align_idempotent_witness :
  let price_a := lookup "A" example_prices in
  let price_d := lookup "D" example_prices in
  align price_a price_d <> (price_a, price_d)
  /\ align (fst (align price_a price_d)) (snd (align price_a price_d))
     = align price_a price_d.
Proof.
  split; [vm_compute; discriminate|].
  exact (proj1 (align_idempotent
                  (lookup "A" example_prices) (lookup "D" example_prices)
                  (example_index_NoDup "A") (example_index_NoDup "D"))).
Defined.

Lemma run_full_analysis_outcome_witness :
  let price_a := lookup "A" example_prices in
  let price_d := lookup "D" example_prices in
  exists res,
    run_full_analysis Backtest.power_one pearson_stand_in ols_stand_in
      adfuller_stand_in price_a price_d 2 0.5 = inr res
    /\ length (Backtest.net_returns res) = 4%nat.
Proof.
  cbv zeta.
  destruct (cointegration_test ols_stand_in adfuller_stand_in
              (fst (align (lookup "A" example_prices) (lookup "D" example_prices)))
              (snd (align (lookup "A" example_prices) (lookup "D" example_prices))))
    as [e|c] eqn:Htest; [vm_compute in Htest; discriminate|].
  destruct (proj2 (proj2 (run_full_analysis_outcome Backtest.power_one
              pearson_stand_in ols_stand_in adfuller_stand_in
              (lookup "A" example_prices) (lookup "D" example_prices)
              2%float 0.5%float)) c Htest)
    as (res & Hres & Hnet & _).
  - vm_compute. discriminate.
  - apply example_index_NoDup.
  - apply example_index_NoDup.
  - exists res. split; [exact Hres|]. rewrite Hnet. vm_compute. reflexivity.
Defined.

End PipelineFacts.

Module SchemaFacts.
Import Schema.

(** X19: in both enumerations of [schema.py] distinct members have distinct
    values: building a member from its value gives the member back, a
    string is accepted only if it is the value of the member returned, any
    other string raises [ValueError], and no string names both a provider
    and a role. *)
Theorem enum_values_round_trip :
  (forall p, provider_of_value (provider_value p) = inr p)
  /\ (forall r, role_of_value (role_value r) = inr r)
  /\ (forall v p, provider_of_value v = inr p -> provider_value p = v)
  /\ (forall v r, role_of_value v = inr r -> role_value r = v)
  /\ (forall v e, provider_of_value v = inl e ->
        e = Raised "ValueError" /\ forall p, provider_value p <> v)
  /\ (forall v e, role_of_value v = inl e ->
        e = Raised "ValueError" /\ forall r, role_value r <> v)
  /\ (forall p r, provider_value p <> role_value r).
Proof.
  split; [intros []; reflexivity|].
  split; [intros []; reflexivity|].
  split.
  { intros v p. unfold provider_of_value.
    destruct (find _ providers) as [q|] eqn:E; [|discriminate].
    intros H. inversion H; subst. apply find_some in E.
    apply String.eqb_eq. tauto. }
  split.
  { intros v r. unfold role_of_value.
    destruct (find _ roles) as [q|] eqn:E; [|discriminate].
    intros H. inversion H; subst. apply find_some in E.
    apply String.eqb_eq. tauto. }
  split.
  { intros v e. unfold provider_of_value.
    destruct (find _ providers) as [q|] eqn:E; [discriminate|].
    intros H. inversion H; subst. split; [reflexivity|].
    intros p Hp. assert (Hin : In p providers) by (destruct p; simpl; tauto).
    apply (find_none _ _ E) in Hin. apply String.eqb_neq in Hin. contradiction. }
  split.
  { intros v e. unfold role_of_value.
    destruct (find _ roles) as [q|] eqn:E; [discriminate|].
    intros H. inversion H; subst. split; [reflexivity|].
    intros r Hr. assert (Hin : In r roles) by (destruct r; simpl; tauto).
    apply (find_none _ _ E) in Hin. apply String.eqb_neq in Hin. contradiction. }
  intros [] []; discriminate.
Qed.

End SchemaFacts.
